(** * bumblebee [pkg/packaging]: pushing and pulling eBPF packages

    A shallow embedding of [pkg/packaging/spec.go].  The package is a thin
    adapter: [Push] stages a program blob and a JSON config in an in-memory
    content store, binds them in a manifest and copies the lot to a remote
    registry; [Pull] copies an artifact back and reassembles the package.

    Layout of the development:
    - [Go]        Go values the code manipulates: bytes, errors, maps and
                  pointers that may be nil, and an outcome type that
                  separates a normal return from a run-time panic;
    - [utf8], [utf16], [json]
                  the rune decoder and encoder, and the string encoder
                  and the decoder of [encoding/json];
    - [context], [digest], [ocispec], [content], [oras]
                  the part of the OCI client the package calls;
    - [packaging] the code of [spec.go] itself;
    - [spec], [instances]
                  the vocabulary of the statements, and a concrete digest
                  and manifest codec at which they can be run;
    - the properties of the codecs and of the stores, and in [contract]
      the theorems about [Push], [Pull] and [buildConfigDescriptor];
    - in [behaviour], what else the code does: errors and edge cases,
      what a push leaves in the registry and what a pull reads from it,
      how pushes and pulls compose, and the handle behind
      [NewEbpfRegistry]. *)

From Stdlib Require Import ZArith Lia List Bool.
From Stdlib Require Import Strings.Ascii Strings.String Strings.Byte.
From stdpp Require Import base option list functions gmap strings.

Local Open Scope Z_scope.

(** ** Go values *)

Module Go.

(** Go's [error] values met in this package: [errors_New text] is the
    value of [errors.New(text)], [SyntaxError] and [UnmarshalTypeError]
    are the two errors of [json.Unmarshal], and [RegistryError] stands
    for whatever the registry client reports (not found, authentication,
    network, a cancelled context). *)
Inductive error : Type :=
| errors_New (text : string)
| SyntaxError
| UnmarshalTypeError (Value : string)
| RegistryError (text : string).

(** A call either returns or panics. *)
Inductive outcome (A : Type) : Type :=
| Ret (a : A)
| Panic (msg : string).
Arguments Ret {A} a.
Arguments Panic {A} msg.

Definition bind {A B} (m : outcome A) (k : A -> outcome B) : outcome B :=
  match m with
  | Ret a => k a
  | Panic msg => Panic msg
  end.

#[export] Instance outcome_ret : MRet outcome := @Ret.
#[export] Instance outcome_bind : MBind outcome := fun _ _ k m => bind m k.

Definition nil_dereference : string :=
  "runtime error: invalid memory address or nil pointer dereference".
Definition nil_map_assignment : string :=
  "assignment to entry in nil map".

(** [m[k] = v] on a map [m]: a nil map panics. *)
Definition map_assign `{Countable K} {V} (m : option (gmap K V)) (k : K)
    (v : V) : outcome (option (gmap K V)) :=
  match m with
  | Some m' => Ret (Some (<[k := v]> m'))
  | None => Panic nil_map_assignment
  end.

(** [m[k]] on a map [m], in the two-result form: a nil map has no
    entries. *)
Definition map_index `{Countable K} {V} (zero : V) (m : option (gmap K V))
    (k : K) : V * bool :=
  match m with
  | Some m' =>
      match m' !! k with
      | Some v => (v, true)
      | None => (zero, false)
      end
  | None => (zero, false)
  end.

(** [*p] for a pointer [p]: a nil pointer panics. *)
Definition deref {A} (p : option A) : outcome A :=
  match p with
  | Some a => Ret a
  | None => Panic nil_dereference
  end.

(** Bytes as numbers, and the truncating conversion [byte(x)]. *)
Definition b2z (b : byte) : Z := Z.of_N (Byte.to_N b).

Definition z2b (z : Z) : byte :=
  match Byte.of_N (Z.to_N (z mod 256)) with
  | Some b => b
  | None => x00
  end.

Arguments b2z : simpl nomatch.
Arguments z2b : simpl nomatch.

End Go.

Import Go.

(** ** [unicode/utf8]: decoding and encoding one rune

    Modelled from the spec: the spec has the config "JSON-encoded" and
    "JSON-decoded"; the code does so with Go's [encoding/json], which
    reads and writes strings rune by rune with [unicode/utf8].  Neither
    package is part of the repository.  The definitions follow the two
    library functions the JSON codec calls, [DecodeRune] and
    [EncodeRune], with the library's constants and tables. *)

Module utf8.

Definition RuneError : Z := 0xFFFD.
Definition RuneSelf : Z := 0x80.
Definition MaxRune : Z := 0x10FFFF.

Definition surrogateMin : Z := 0xD800.
Definition surrogateMax : Z := 0xDFFF.

Definition t2 : Z := 0xC0.
Definition t3 : Z := 0xE0.
Definition t4 : Z := 0xF0.
Definition tx : Z := 0x80.
Definition maskx : Z := 0x3F.
Definition mask2 : Z := 0x1F.
Definition mask3 : Z := 0x0F.
Definition mask4 : Z := 0x07.

Definition rune1Max : Z := 0x7F.
Definition rune2Max : Z := 0x7FF.
Definition rune3Max : Z := 0xFFFF.

Definition locb : Z := 0x80.
Definition hicb : Z := 0xBF.

(** Entries of the table [first]: the low three bits hold the length of
    the sequence, the high four bits index [acceptRanges]. *)
Definition xx : Z := 0xF1.
Definition as_ : Z := 0xF0.
Definition s1 : Z := 0x02.
Definition s2 : Z := 0x13.
Definition s3 : Z := 0x03.
Definition s4 : Z := 0x23.
Definition s5 : Z := 0x34.
Definition s6 : Z := 0x04.
Definition s7 : Z := 0x44.

(** The table [first], by ranges of the leading byte. *)
Definition first (p0 : Z) : Z :=
  if p0 <? 0x80 then as_
  else if p0 <? 0xC2 then xx
  else if p0 <? 0xE0 then s1
  else if p0 =? 0xE0 then s2
  else if p0 <? 0xED then s3
  else if p0 =? 0xED then s4
  else if p0 <? 0xF0 then s3
  else if p0 =? 0xF0 then s5
  else if p0 <? 0xF4 then s6
  else if p0 =? 0xF4 then s7
  else xx.

(** The table [acceptRanges]: bounds on the second byte. *)
Definition acceptRanges (i : Z) : Z * Z :=
  if i =? 0 then (locb, hicb)
  else if i =? 1 then (0xA0, hicb)
  else if i =? 2 then (locb, 0x9F)
  else if i =? 3 then (0x90, hicb)
  else if i =? 4 then (locb, 0x8F)
  else (0, 0).

(** Modelled from the spec: [utf8.DecodeRune(p)], the first rune of [p]
    and its width in bytes; [(RuneError, 1)] on an invalid or truncated
    encoding. *)
Definition DecodeRune (p : list byte) : Z * nat :=
  match p with
  | [] => (RuneError, 0%nat)
  | c0 :: p1 =>
    let p0 := b2z c0 in
    let x := first p0 in
    if as_ <=? x then ((if x =? xx then RuneError else p0), 1%nat)
    else
      let sz := Z.to_nat (Z.land x 7) in
      let accept := acceptRanges (Z.shiftr x 4) in
      if (length p <? sz)%nat then (RuneError, 1%nat)
      else
        match p1 with
        | [] => (RuneError, 1%nat)
        | c1 :: p2 =>
          let b1 := b2z c1 in
          if (b1 <? fst accept) || (snd accept <? b1) then (RuneError, 1%nat)
          else if (sz <=? 2)%nat then
            (Z.lor (Z.shiftl (Z.land p0 mask2) 6) (Z.land b1 maskx), 2%nat)
          else
            match p2 with
            | [] => (RuneError, 1%nat)
            | c2 :: p3 =>
              let b2 := b2z c2 in
              if (b2 <? locb) || (hicb <? b2) then (RuneError, 1%nat)
              else if (sz <=? 3)%nat then
                (Z.lor (Z.lor (Z.shiftl (Z.land p0 mask3) 12)
                              (Z.shiftl (Z.land b1 maskx) 6))
                       (Z.land b2 maskx), 3%nat)
              else
                match p3 with
                | [] => (RuneError, 1%nat)
                | c3 :: _ =>
                  let b3 := b2z c3 in
                  if (b3 <? locb) || (hicb <? b3) then (RuneError, 1%nat)
                  else
                    (Z.lor (Z.lor (Z.lor (Z.shiftl (Z.land p0 mask4) 18)
                                         (Z.shiftl (Z.land b1 maskx) 12))
                                  (Z.shiftl (Z.land b2 maskx) 6))
                           (Z.land b3 maskx), 4%nat)
                end
            end
        end
  end.

(** Modelled from the spec: [utf8.EncodeRune(p, r)], the bytes written
    for [r]; a surrogate or a value out of range is written as
    [RuneError]. *)
Definition encode3 (r : Z) : list byte :=
  [ z2b (Z.lor t3 (b2z (z2b (Z.shiftr r 12))));
    z2b (Z.lor tx (Z.land (b2z (z2b (Z.shiftr r 6))) maskx));
    z2b (Z.lor tx (Z.land (b2z (z2b r)) maskx)) ].

Definition EncodeRune (r : Z) : list byte :=
  let i := r mod 2 ^ 32 in
  if i <=? rune1Max then [ z2b r ]
  else if i <=? rune2Max then
    [ z2b (Z.lor t2 (b2z (z2b (Z.shiftr r 6))));
      z2b (Z.lor tx (Z.land (b2z (z2b r)) maskx)) ]
  else if (MaxRune <? i) || ((surrogateMin <=? i) && (i <=? surrogateMax))
  then encode3 RuneError
  else if i <=? rune3Max then encode3 r
  else
    [ z2b (Z.lor t4 (b2z (z2b (Z.shiftr r 18))));
      z2b (Z.lor tx (Z.land (b2z (z2b (Z.shiftr r 12))) maskx));
      z2b (Z.lor tx (Z.land (b2z (z2b (Z.shiftr r 6))) maskx));
      z2b (Z.lor tx (Z.land (b2z (z2b r)) maskx)) ].

(** Well-formed byte sequences, as the Unicode standard tabulates them
    (table 3-7), with the scalar value they encode and their width. *)
Definition second_lo (p0 : Z) : Z :=
  if p0 =? 0xE0 then 0xA0 else if p0 =? 0xF0 then 0x90 else 0x80.
Definition second_hi (p0 : Z) : Z :=
  if p0 =? 0xED then 0x9F else if p0 =? 0xF4 then 0x8F else 0xBF.

Inductive wellformed : list byte -> Z -> nat -> Prop :=
| wf1 c p :
    b2z c < 0x80 ->
    wellformed (c :: p) (b2z c) 1
| wf2 c0 c1 p :
    0xC2 <= b2z c0 <= 0xDF ->
    0x80 <= b2z c1 <= 0xBF ->
    wellformed (c0 :: c1 :: p)
               ((b2z c0 - 0xC0) * 64 + (b2z c1 - 0x80)) 2
| wf3 c0 c1 c2 p :
    0xE0 <= b2z c0 <= 0xEF ->
    second_lo (b2z c0) <= b2z c1 <= second_hi (b2z c0) ->
    0x80 <= b2z c2 <= 0xBF ->
    wellformed (c0 :: c1 :: c2 :: p)
               ((b2z c0 - 0xE0) * 4096 + (b2z c1 - 0x80) * 64
                + (b2z c2 - 0x80)) 3
| wf4 c0 c1 c2 c3 p :
    0xF0 <= b2z c0 <= 0xF4 ->
    second_lo (b2z c0) <= b2z c1 <= second_hi (b2z c0) ->
    0x80 <= b2z c2 <= 0xBF ->
    0x80 <= b2z c3 <= 0xBF ->
    wellformed (c0 :: c1 :: c2 :: c3 :: p)
               ((b2z c0 - 0xF0) * 262144 + (b2z c1 - 0x80) * 4096
                + (b2z c2 - 0x80) * 64 + (b2z c3 - 0x80)) 4.

(** The table [first], read by ranges of the leading byte. *)
Inductive first_class (p0 : Z) : Z -> Prop :=
| fc_as : p0 < 0x80 -> first_class p0 as_
| fc_xx : 0x80 <= p0 < 0xC2 \/ 0xF5 <= p0 -> first_class p0 xx
| fc_s1 : 0xC2 <= p0 <= 0xDF -> first_class p0 s1
| fc_s2 : p0 = 0xE0 -> first_class p0 s2
| fc_s3 : 0xE1 <= p0 <= 0xEC \/ 0xEE <= p0 <= 0xEF -> first_class p0 s3
| fc_s4 : p0 = 0xED -> first_class p0 s4
| fc_s5 : p0 = 0xF0 -> first_class p0 s5
| fc_s6 : 0xF1 <= p0 <= 0xF3 -> first_class p0 s6
| fc_s7 : p0 = 0xF4 -> first_class p0 s7.

(** [Valid p]: [p] consists of well-formed encodings only.  The loop of
    the library advances by the width of each rune; [fuel] bounds the
    number of runes. *)
Fixpoint valid_loop (fuel : nat) (p : list byte) : bool :=
  match p with
  | [] => true
  | _ :: _ =>
    match fuel with
    | O => false
    | S fuel' =>
      let '(c, size) := DecodeRune p in
      if (c =? RuneError) && (size =? 1)%nat then false
      else valid_loop fuel' (drop size p)
    end
  end.

Definition Valid (p : list byte) : bool := valid_loop (length p) p.

End utf8.

(** ** [unicode/utf16]: surrogate pairs

    Modelled from the spec: the part of Go's [unicode/utf16] that the JSON
    decoder calls for [\u] escapes. *)

Module utf16.

Definition surr1 : Z := 0xD800.
Definition surr2 : Z := 0xDC00.
Definition surr3 : Z := 0xE000.
Definition surrSelf : Z := 0x10000.

Definition IsSurrogate (r : Z) : bool := (surr1 <=? r) && (r <? surr3).

Definition DecodeRune (r1 r2 : Z) : Z :=
  if (surr1 <=? r1) && (r1 <? surr2) && (surr2 <=? r2) && (r2 <? surr3)
  then Z.lor (Z.shiftl (r1 - surr1) 10) (r2 - surr2) + surrSelf
  else utf8.RuneError.

End utf16.

(** ** [encoding/json]

    Modelled from the spec: "JSON-encode the config" and "JSON-decode the
    config entry" are calls to Go's [encoding/json], a dependency of the
    repository.  The definitions follow the library: strings are written
    as [encodeState.string] writes them with HTML escaping on (the
    default of [json.Marshal]), and a document is read as [checkValid]
    and the decoder read it, string literals through [unquote]. *)

Module json.

(** Bytes of the grammar. *)
Definition quote : byte := x22.      (* the double quote *)
Definition backslash : byte := x5c.

(** *** Encoding a string: [encodeState.string] with [escapeHTML] set *)

(** [htmlSafeSet]: the ASCII bytes written as they are. *)
Definition htmlSafeSet (b : Z) : bool :=
  (0x20 <=? b) && (b <? 0x80)
  && negb (b =? 0x22)    (* the double quote *)
  && negb (b =? 0x26)    (* & *)
  && negb (b =? 0x3C)    (* < *)
  && negb (b =? 0x3E)    (* > *)
  && negb (b =? 0x5C).   (* \ *)

Definition hex (n : Z) : byte :=
  nth (Z.to_nat n) (list_byte_of_string "0123456789abcdef") x00.

(** The escape written for an ASCII byte outside [htmlSafeSet]. *)
Definition escape_ascii (c : byte) : list byte :=
  let b := b2z c in
  if (b =? 0x5C) || (b =? 0x22) then [backslash; c]
  else if b =? 0x0A then backslash :: list_byte_of_string "n"
  else if b =? 0x0D then backslash :: list_byte_of_string "r"
  else if b =? 0x09 then backslash :: list_byte_of_string "t"
  else backslash :: list_byte_of_string "u00"
       ++ [hex (Z.shiftr b 4); hex (Z.land b 0xF)].

(** Modelled from the spec: the loop of [encodeState.string] over the
    remaining input, one iteration per rune; [fuel] bounds the
    iterations. *)
Fixpoint string_loop (fuel : nat) (s : list byte) : list byte :=
  match fuel with
  | O => []
  | S fuel' =>
    match s with
    | [] => []
    | c :: tl =>
      if b2z c <? utf8.RuneSelf then
        if htmlSafeSet (b2z c) then c :: string_loop fuel' tl
        else escape_ascii c ++ string_loop fuel' tl
      else
        let '(r, size) := utf8.DecodeRune s in
        if (r =? utf8.RuneError) && (size =? 1)%nat then
          (backslash :: list_byte_of_string "ufffd")
          ++ string_loop fuel' (drop size s)
        else if (r =? 0x2028) || (r =? 0x2029) then
          (backslash :: list_byte_of_string "u202" ++ [hex (Z.land r 0xF)])
          ++ string_loop fuel' (drop size s)
        else take size s ++ string_loop fuel' (drop size s)
    end
  end.

Definition encode_string (s : list byte) : list byte :=
  quote :: string_loop (length s) s ++ [quote].

(** *** Decoding *)

(** [getu4 s]: the rune of a leading [\uXXXX], or [-1]. *)
Definition hexval (c : Z) : option Z :=
  if (0x30 <=? c) && (c <=? 0x39) then Some (c - 0x30)
  else if (0x61 <=? c) && (c <=? 0x66) then Some (c - 0x61 + 10)
  else if (0x41 <=? c) && (c <=? 0x46) then Some (c - 0x41 + 10)
  else None.

Definition getu4 (s : list byte) : Z :=
  match s with
  | c0 :: c1 :: h0 :: h1 :: h2 :: h3 :: _ =>
    if negb (b2z c0 =? 0x5C) || negb (b2z c1 =? 0x75) then -1
    else
      match hexval (b2z h0), hexval (b2z h1),
            hexval (b2z h2), hexval (b2z h3) with
      | Some d0, Some d1, Some d2, Some d3 =>
          ((d0 * 16 + d1) * 16 + d2) * 16 + d3
      | _, _, _, _ => -1
      end
  | _ => -1
  end.

(** The byte denoted by a one-letter escape. *)
Definition simple_escape (e : Z) : option byte :=
  if e =? 0x22 then Some x22
  else if e =? 0x5C then Some x5c
  else if e =? 0x2F then Some x2f
  else if e =? 0x62 then Some x08
  else if e =? 0x66 then Some x0c
  else if e =? 0x6E then Some x0a
  else if e =? 0x72 then Some x0d
  else if e =? 0x74 then Some x09
  else None.

(** Modelled from the spec: a string literal, read from just after its
    opening quote: the string it denotes and the input after its closing
    quote.  This is the scanner's check of the literal followed by
    [unquote]: escapes are resolved, surrogate pairs joined, and raw
    bytes coerced to well-formed UTF-8. *)
Fixpoint unquote_loop (fuel : nat) (s : list byte)
  : option (list byte * list byte) :=
  match fuel with
  | O => None
  | S fuel' =>
    let continue (out rest : list byte) :=
      match unquote_loop fuel' rest with
      | Some (d, rest') => Some (out ++ d, rest')
      | None => None
      end in
    match s with
    | [] => None
    | c :: r =>
      let cz := b2z c in
      if cz =? 0x22 then Some ([], r)
      else if cz =? 0x5C then
        match r with
        | [] => None
        | e :: r' =>
          match simple_escape (b2z e) with
          | Some b => continue [b] r'
          | None =>
            if b2z e =? 0x75 then
              let rr := getu4 s in
              if rr <? 0 then None
              else
                let r6 := drop 6 s in
                if utf16.IsSurrogate rr then
                  let dec := utf16.DecodeRune rr (getu4 r6) in
                  if negb (dec =? utf8.RuneError)
                  then continue (utf8.EncodeRune dec) (drop 6 r6)
                  else continue (utf8.EncodeRune utf8.RuneError) r6
                else continue (utf8.EncodeRune rr) r6
            else None
          end
        end
      else if cz <? 0x20 then None
      else if cz <? utf8.RuneSelf then continue [c] r
      else
        let '(rr, size) := utf8.DecodeRune s in
        continue (utf8.EncodeRune rr) (drop size s)
    end
  end.

Definition unquote (s : list byte) : option (list byte * list byte) :=
  unquote_loop (S (length s)) s.

(** One iteration of [unquote_loop] that emits [out] and goes on with
    [rest]. *)
Definition continue (fuel : nat) (out rest : list byte)
  : option (list byte * list byte) :=
  match unquote_loop fuel rest with
  | Some (d, rest') => Some (out ++ d, rest')
  | None => None
  end.

Arguments unquote : simpl never.

(** [coerce s]: [s] with every byte that starts no well-formed
    encoding replaced by the encoding of U+FFFD; the identity on
    well-formed UTF-8.  It is the string that the literal
    [encode_string s] denotes. *)
Fixpoint coerce_loop (fuel : nat) (s : list byte) : list byte :=
  match fuel with
  | O => []
  | S fuel' =>
    match s with
    | [] => []
    | _ :: _ =>
      let '(r, size) := utf8.DecodeRune s in
      if (r =? utf8.RuneError) && (size =? 1)%nat then
        utf8.EncodeRune utf8.RuneError ++ coerce_loop fuel' (drop size s)
      else take size s ++ coerce_loop fuel' (drop size s)
    end
  end.

Definition coerce (s : list byte) : list byte := coerce_loop (length s) s.


(** *** Documents *)

#[warnings="-register-all"]
Inductive value : Type :=
| Null
| Bool (b : bool)
| Number (literal : list byte)
| String (s : list byte)
| Array (elements : list value)
| Object (members : list (list byte * value)).

Definition maxNestingDepth : Z := 10000.

Definition isSpace (c : Z) : bool :=
  (c =? 0x20) || (c =? 0x09) || (c =? 0x0D) || (c =? 0x0A).

Fixpoint skip_space (s : list byte) : list byte :=
  match s with
  | c :: r => if isSpace (b2z c) then skip_space r else s
  | [] => []
  end.

(** [s] without the prefix [pre], when it starts with it. *)
Fixpoint strip_prefix (pre s : list byte) : option (list byte) :=
  match pre, s with
  | [], _ => Some s
  | a :: pre', b :: s' =>
      if Byte.eqb a b then strip_prefix pre' s' else None
  | _ :: _, [] => None
  end.

Definition isDigit (c : Z) : bool := (0x30 <=? c) && (c <=? 0x39).

Fixpoint digits (s : list byte) : list byte * list byte :=
  match s with
  | c :: r =>
      if isDigit (b2z c) then let '(ds, r') := digits r in (c :: ds, r')
      else ([], s)
  | [] => ([], [])
  end.

(** Numbers: the states [stateNeg], [state0], [state1], [stateDot],
    [stateDot0], [stateE], [stateESign] and [stateE0] of the scanner. *)
Definition scan_exponent (acc s : list byte)
  : option (list byte * list byte) :=
  match s with
  | e :: r =>
    if (b2z e =? 0x65) || (b2z e =? 0x45) then
      let '(sign, r1) :=
        match r with
        | g :: r' =>
            if (b2z g =? 0x2B) || (b2z g =? 0x2D) then ([g], r')
            else ([], r)
        | [] => ([], r)
        end in
      match digits r1 with
      | ([], _) => None
      | (ds, r2) => Some (acc ++ e :: sign ++ ds, r2)
      end
    else Some (acc, s)
  | [] => Some (acc, s)
  end.

Definition scan_fraction (acc s : list byte)
  : option (list byte * list byte) :=
  match s with
  | d :: r =>
    if b2z d =? 0x2E then
      match digits r with
      | ([], _) => None
      | (ds, r1) => scan_exponent (acc ++ d :: ds) r1
      end
    else scan_exponent acc s
  | [] => Some (acc, s)
  end.

Definition scan_number (s : list byte) : option (list byte * list byte) :=
  let '(neg, s1) :=
    match s with
    | c :: r => if b2z c =? 0x2D then ([c], r) else ([], s)
    | [] => ([], s)
    end in
  match s1 with
  | c :: r =>
    if b2z c =? 0x30 then scan_fraction (neg ++ [c]) r
    else if (0x31 <=? b2z c) && (b2z c <=? 0x39) then
      let '(ds, r1) := digits r in scan_fraction (neg ++ c :: ds) r1
    else None
  | [] => None
  end.

(** Modelled from the spec: one value, read from the front of the
    input as the scanner and the decoder read it; [None] is a syntax
    error.  [depth] counts the arrays and objects that are open, as the
    scanner's [parseState] does; [fuel] bounds the number of values and
    members read, and a document of [n] bytes needs no more than [2 n]. *)
Fixpoint parse_value (fuel : nat) (depth : Z) (s : list byte)
  : option (value * list byte) :=
  match fuel with
  | O => None
  | S fuel' =>
    match skip_space s with
    | [] => None
    | c :: r =>
      let cz := b2z c in
      if cz =? 0x7B then                     (* an object *)
        if maxNestingDepth <=? depth then None
        else
          match skip_space r with
          | c' :: r' =>
            if b2z c' =? 0x7D then Some (Object [], r')
            else
              match parse_members fuel' (depth + 1) r with
              | Some (ms, rest) => Some (Object ms, rest)
              | None => None
              end
          | [] => None
          end
      else if cz =? 0x5B then                (* an array *)
        if maxNestingDepth <=? depth then None
        else
          match skip_space r with
          | c' :: r' =>
            if b2z c' =? 0x5D then Some (Array [], r')
            else
              match parse_elements fuel' (depth + 1) r with
              | Some (vs, rest) => Some (Array vs, rest)
              | None => None
              end
          | [] => None
          end
      else if cz =? 0x22 then                (* a string *)
        match unquote r with
        | Some (str, rest) => Some (String str, rest)
        | None => None
        end
      else if cz =? 0x74 then
        option_map (pair (Bool true))
                   (strip_prefix (list_byte_of_string "true") (c :: r))
      else if cz =? 0x66 then
        option_map (pair (Bool false))
                   (strip_prefix (list_byte_of_string "false") (c :: r))
      else if cz =? 0x6E then
        option_map (pair Null)
                   (strip_prefix (list_byte_of_string "null") (c :: r))
      else
        match scan_number (c :: r) with
        | Some (lit, rest) => Some (Number lit, rest)
        | None => None
        end
    end
  end

with parse_members (fuel : nat) (depth : Z) (s : list byte)
  : option (list (list byte * value) * list byte) :=
  match fuel with
  | O => None
  | S fuel' =>
    match skip_space s with
    | q :: r =>
      if b2z q =? 0x22 then
        match unquote r with
        | Some (key, r1) =>
          match skip_space r1 with
          | colon :: r2 =>
            if b2z colon =? 0x3A then
              match parse_value fuel' depth r2 with
              | Some (v, r3) =>
                match skip_space r3 with
                | d :: r4 =>
                  if b2z d =? 0x2C then
                    match parse_members fuel' depth r4 with
                    | Some (ms, rest) => Some ((key, v) :: ms, rest)
                    | None => None
                    end
                  else if b2z d =? 0x7D then Some ([(key, v)], r4)
                  else None
                | [] => None
                end
              | None => None
              end
            else None
          | [] => None
          end
        | None => None
        end
      else None
    | [] => None
    end
  end

with parse_elements (fuel : nat) (depth : Z) (s : list byte)
  : option (list value * list byte) :=
  match fuel with
  | O => None
  | S fuel' =>
    match parse_value fuel' depth s with
    | Some (v, r1) =>
      match skip_space r1 with
      | d :: r2 =>
        if b2z d =? 0x2C then
          match parse_elements fuel' depth r2 with
          | Some (vs, rest) => Some (v :: vs, rest)
          | None => None
          end
        else if b2z d =? 0x5D then Some ([v], r2)
        else None
      | [] => None
      end
    | None => None
    end
  end.

(** Matching an object key against a field name that consists of
    ASCII letters other than k and s: [simpleLetterEqualFold]. *)
Definition caseMask : Z := 0xDF.

Fixpoint simpleLetterEqualFold (s t : list byte) : bool :=
  match s, t with
  | [], [] => true
  | a :: s', b :: t' =>
      (Z.land (b2z a) caseMask =? Z.land (b2z b) caseMask)
      && simpleLetterEqualFold s' t'
  | _, _ => false
  end.

Fixpoint bytes_Equal (s t : list byte) : bool :=
  match s, t with
  | [], [] => true
  | a :: s', b :: t' => Byte.eqb a b && bytes_Equal s' t'
  | _, _ => false
  end.

(** [saveError]: the first error met while decoding is the one
    reported. *)
Definition saveError (saved : option error) (e : error) : option error :=
  match saved with
  | Some _ => saved
  | None => Some e
  end.

(** Modelled from the spec: [checkValid] and the reading of the
    document in one: the whole input is one value between optional
    white space. *)
Definition parse (data : list byte) : option value :=
  match parse_value (S (2 * length data)) 0 data with
  | Some (v, rest) =>
      match skip_space rest with
      | [] => Some v
      | _ :: _ => None
      end
  | None => None
  end.

End json.

(** ** [context] *)

Module context.

(** Modelled from the spec: the "cancellation context" of a call, as
    far as this package observes it.  [Err] is non-nil once the context
    is cancelled or past its deadline. *)
Record Context : Type := { Err : option error }.

Definition Background : Context := {| Err := None |}.

End context.

(** ** [go-digest] *)

Module digest.

(** Modelled from the spec: the "content digest (cryptographic hash of
    bytes)", [digest.FromBytes] of the dependency (SHA-256).  Its
    arithmetic is not modelled: the development is parametric in the
    function, and the statements that depend on distinct contents having
    distinct digests assume that it has no collision among the blobs at
    hand. *)
Class Algorithm : Type := FromBytes : list byte -> string.

Definition collision_free_on `{Algorithm} (blob : list byte -> Prop)
  : Prop :=
  forall x y : list byte,
    blob x -> blob y -> FromBytes x = FromBytes y -> x = y.

End digest.

(** ** [image-spec/specs-go/v1] *)

Module ocispec.

Definition AnnotationTitle : string := "org.opencontainers.image.title".
Definition MediaTypeImageManifest : string :=
  "application/vnd.oci.image.manifest.v1+json".
Definition MediaTypeImageLayer : string :=
  "application/vnd.oci.image.layer.v1.tar".

(** Modelled from the spec: the "content descriptor", with the fields
    of [ocispec.Descriptor] that the package and the store set.  A nil
    annotations map is [None]. *)
Record Descriptor : Type := {
  MediaType : string;
  Digest : string;
  Size : Z;
  Annotations : option (gmap string string)
}.

#[export] Instance byte_eq_dec : EqDecision byte := Byte.byte_eq_dec.

#[export] Instance Descriptor_eq_dec : EqDecision Descriptor.
Proof. solve_decision. Defined.

(** The zero value [ocispec.Descriptor{}]. *)
Definition Descriptor_zero : Descriptor :=
  {| MediaType := EmptyString; Digest := EmptyString; Size := 0; Annotations := None |}.

(** Modelled from the spec: the "manifest", binding a config descriptor
    and the layer descriptors. *)
Record Manifest : Type := {
  SchemaVersion : Z;
  Config : Descriptor;
  Layers : list Descriptor;
  ManifestAnnotations : option (gmap string string)
}.

(** Modelled from the spec: the wire format of a manifest, which is
    "delegated entirely" to the OCI client.  The package never looks
    inside a manifest, so the codec is a parameter; the statements about
    a pushed and pulled artifact assume that the codec [reads] the
    manifest of that artifact. *)
Class ManifestCodec : Type := {
  Marshal : Manifest -> list byte;
  Unmarshal : list byte -> option Manifest
}.

Definition reads `{ManifestCodec} (m : Manifest) : Prop :=
  Unmarshal (Marshal m) = Some m.

End ocispec.

(** ** [oras-go/pkg/content] and [oras-go/pkg/target]

    The content store and the registry client are a dependency of the
    repository.  The spec describes them as a local stage holding named
    entries, a manifest binding a config descriptor and a program
    descriptor under a reference, and a copy of the manifest and all its
    blobs between the stage and the remote registry.  The definitions
    below follow the library's memory store method by method and give the
    remote registry the content-addressed behaviour of the OCI
    distribution protocol. *)

Module content.
Import context digest ocispec.

Definition DefaultBlobMediaType : string := MediaTypeImageLayer.
Definition UnknownConfigMediaType : string :=
  "application/vnd.unknown.config.v1+json".

(** Modelled from the spec: the "in-memory content store" of the
    library, [content.Memory]: descriptors and contents by digest,
    descriptors by name and by reference. *)
Record Memory : Type := {
  descriptor : gmap string Descriptor;
  content : gmap string (list byte);
  nameMap : gmap string Descriptor;
  refMap : gmap string Descriptor
}.

Definition NewMemory : Memory :=
  {| descriptor := ∅; content := ∅; nameMap := ∅; refMap := ∅ |}.

(** Modelled from the spec: [ResolveName(desc)], the "name annotation
    used for later lookup by title". *)
Definition ResolveName (desc : Descriptor) : string * bool :=
  map_index EmptyString (Annotations desc) AnnotationTitle.

(** Modelled from the spec: [s.Set(desc, content)], staging content
    under a descriptor; the entry is named when the descriptor carries a
    non-empty title. *)
Definition Set_ (s : Memory) (desc : Descriptor) (data : list byte)
  : Memory :=
  let '(name, ok) := ResolveName desc in
  {| descriptor := <[Digest desc := desc]> (descriptor s);
     content := <[Digest desc := data]> (content s);
     nameMap := if ok && negb (String.eqb name EmptyString)
                then <[name := desc]> (nameMap s)
                else nameMap s;
     refMap := refMap s |}.

(** Modelled from the spec: [s.Add(name, mediaType, content)], staging
    content "under a fixed name with the fixed media type": the library
    builds the descriptor and calls [Set]. *)
Definition Add `{Algorithm} (s : Memory) (name mediaType : string)
    (data : list byte) : Memory * (Descriptor * option error) :=
  let annotations :=
    if negb (String.eqb name EmptyString)
    then Some ({[ AnnotationTitle := name ]} : gmap string string)
    else None in
  let mediaType :=
    if String.eqb mediaType EmptyString then DefaultBlobMediaType else mediaType in
  let desc := {| MediaType := mediaType;
                 Digest := FromBytes data;
                 Size := Z.of_nat (length data);
                 Annotations := annotations |} in
  (Set_ s desc data, (desc, None)).

(** Modelled from the spec: [s.Get(desc)], the lookup by digest behind
    a fetch from the store. *)
Definition Get (s : Memory) (desc : Descriptor)
  : Descriptor * list byte * bool :=
  match descriptor s !! Digest desc with
  | None => (Descriptor_zero, [], false)
  | Some desc' =>
      match content s !! Digest desc' with
      | Some data => (desc', data, true)
      | None => (desc', [], false)
      end
  end.

(** Modelled from the spec: [s.GetByName(name)], "look up the staged
    entry named ...". *)
Definition GetByName (s : Memory) (name : string)
  : Descriptor * list byte * bool :=
  match nameMap s !! name with
  | None => (Descriptor_zero, [], false)
  | Some desc =>
      match content s !! Digest desc with
      | Some data => (desc, data, true)
      | None => (desc, [], false)
      end
  end.

(** Modelled from the spec: [s.StoreManifest(ref, desc, manifest)],
    "store the manifest locally keyed by ref". *)
Definition StoreManifest `{Algorithm} (s : Memory) (ref : string)
    (desc : Descriptor) (manifest : list byte) : Memory * option error :=
  let s1 := {| descriptor := descriptor s; content := content s;
               nameMap := nameMap s;
               refMap := <[ref := desc]> (refMap s) |} in
  let '(s2, _) := Add s1 EmptyString (MediaType desc) manifest in
  (s2, None).

(** Modelled from the spec: [GenerateConfig(annotations)], the blank
    config the library generates when it is given none. *)
Definition GenerateConfig `{Algorithm}
    (annotations : option (gmap string string))
  : list byte * Descriptor * option error :=
  let configBytes := list_byte_of_string "{}" in
  (configBytes,
   {| MediaType := UnknownConfigMediaType;
      Digest := FromBytes configBytes;
      Size := Z.of_nat (length configBytes);
      Annotations := annotations |},
   None).

(** Modelled from the spec: the library sorts the layers of a manifest
    by digest. *)
Fixpoint insert_by_digest (d : Descriptor) (l : list Descriptor)
  : list Descriptor :=
  match l with
  | [] => [d]
  | d' :: l' =>
      if String.ltb (Digest d') (Digest d)
      then d' :: insert_by_digest d l'
      else d :: l
  end.

Definition sort_by_digest (l : list Descriptor) : list Descriptor :=
  foldr insert_by_digest [] l.

(** Modelled from the spec: [GenerateManifest(config, annotations,
    descs...)], "build a manifest listing the config descriptor as
    configuration and the program descriptor as the sole content
    layer". *)
Definition GenerateManifest `{Algorithm} `{ManifestCodec}
    (config : option Descriptor)
    (annotations : option (gmap string string))
    (descs : list Descriptor)
  : list byte * Descriptor * option error :=
  let config :=
    match config with
    | Some c => c
    | None => snd (fst (GenerateConfig None))
    end in
  let manifest := {| SchemaVersion := 2;
                     Config := config;
                     Layers := sort_by_digest descs;
                     ManifestAnnotations := annotations |} in
  let manifestBytes := Marshal manifest in
  (manifestBytes,
   {| MediaType := MediaTypeImageManifest;
      Digest := FromBytes manifestBytes;
      Size := Z.of_nat (length manifestBytes);
      Annotations := None |},
   None).

(** Modelled from the spec: the "remote registry" behind the
    [*content.Registry] handle: blobs by digest, references resolving
    to manifest descriptors, and [fault], the error with which the
    registry currently answers every request (unreachable,
    unauthorised), if any. *)
Record Registry : Type := {
  blobs : gmap string (list byte);
  tags : gmap string Descriptor;
  fault : option error
}.

(** Modelled from the spec: a source or destination of [oras.Copy],
    the interface [target.Target] of the library: [Resolve] a reference
    to the descriptor of its root, [Fetch] the content of a descriptor,
    and [Push] content under a descriptor ([ref] is the reference the
    pusher was opened for). *)
Class Target (T : Type) : Type := {
  Resolve : Context -> T -> string -> error + Descriptor;
  Fetch : Context -> T -> Descriptor -> error + list byte;
  Push : Context -> T -> string -> Descriptor -> list byte -> error + T
}.

(** Modelled from the spec: [ref] cut at its first [@], as the pusher
    of the memory store does: the tag, and the hash if any. *)
Fixpoint split_hash (ref : string) : string * string :=
  match ref with
  | EmptyString => (EmptyString, EmptyString)
  | String.String c r =>
      if Ascii.eqb c "@"%char then (EmptyString, r)
      else let '(tag, hash) := split_hash r in (String.String c tag, hash)
  end.

(** Modelled from the spec: the memory store as a target.  It resolves
    references stored with [StoreManifest], fetches by digest, and takes
    pushed content with [Set]. *)
#[export] Instance Memory_Target : Target Memory := {|
  Resolve _ s ref :=
    match refMap s !! ref with
    | Some desc => inr desc
    | None => inl (errors_New (String.append "unknown reference: " ref))
    end;
  Fetch _ s desc :=
    let '(_, data, ok) := Get s desc in
    if ok then inr data else inl (errors_New "not_found");
  Push _ s ref desc data :=
    let '(tag, hash) := split_hash ref in
    let s1 :=
      if String.eqb (Digest desc) hash
      then {| descriptor := descriptor s; content := content s;
              nameMap := nameMap s;
              refMap := <[tag := desc]> (refMap s) |}
      else s in
    inr (Set_ s1 desc data)
|}.

(** Modelled from the spec: a request to the remote registry fails
    when the context is done or the registry is at fault ("network,
    auth, not-found, remote rejection"). *)
Definition transport (ctx : Context) (r : Registry) : option error :=
  match Err ctx with
  | Some e => Some e
  | None => fault r
  end.

(** Modelled from the spec: the remote registry as a target, with the
    content-addressed behaviour of the OCI distribution protocol.  An
    upload is checked against its digest; a blob that the registry
    holds already is not written again; a manifest is tagged with the
    reference it is pushed under. *)
#[export] Instance Registry_Target `{Algorithm} : Target Registry := {|
  Resolve ctx r ref :=
    match transport ctx r with
    | Some e => inl e
    | None =>
        match tags r !! ref with
        | Some desc => inr desc
        | None => inl (RegistryError "not found")
        end
    end;
  Fetch ctx r desc :=
    match transport ctx r with
    | Some e => inl e
    | None =>
        match blobs r !! Digest desc with
        | Some data => inr data
        | None => inl (RegistryError "not found")
        end
    end;
  Push ctx r ref desc data :=
    match transport ctx r with
    | Some e => inl e
    | None =>
        if negb (String.eqb (FromBytes data) (Digest desc))
        then inl (RegistryError "digest invalid")
        else
          inr {| blobs := match blobs r !! Digest desc with
                          | Some _ => blobs r
                          | None => <[Digest desc := data]> (blobs r)
                          end;
                 tags := if String.eqb (MediaType desc)
                                       MediaTypeImageManifest
                         then <[ref := desc]> (tags r)
                         else tags r;
                 fault := fault r |}
    end
|}.

End content.

(** ** [oras-go/pkg/oras]

    [oras.Copy] is "copy everything (manifest + both blobs)" from one
    target to another under a reference.  The copy resolves the reference
    at the source, reads the manifest, transfers the config and the
    layers it lists, and last the manifest itself.  Image indexes and the
    concurrency of the transfers are outside the model. *)

Module oras.
Import context ocispec content.

(** Modelled from the spec: the transfer of the blobs [descs], one
    after the other; the destination keeps what was written before a
    failure. *)
Fixpoint transfer `{Target A} `{Target B} (ctx : Context) (from : A)
    (to : B) (toRef : string) (descs : list Descriptor)
  : B * option error :=
  match descs with
  | [] => (to, None)
  | desc :: rest =>
      match Fetch ctx from desc with
      | inl e => (to, Some e)
      | inr data =>
          match Push ctx to toRef desc data with
          | inl e => (to, Some e)
          | inr to' => transfer ctx from to' toRef rest
          end
      end
  end.

(** Modelled from the spec: the descriptors a root refers to, the
    config and the layers of a manifest. *)
Definition children `{ManifestCodec} (root : Descriptor)
    (data : list byte) : error + list Descriptor :=
  if String.eqb (MediaType root) MediaTypeImageManifest then
    match Unmarshal data with
    | Some m => inr (Config m :: Layers m)
    | None => inl SyntaxError
    end
  else inr [].

(** Modelled from the spec: [oras.Copy(ctx, from, fromRef, to, toRef)],
    "copy everything (manifest + both blobs)"; an empty [toRef] stands
    for [fromRef]. *)
Definition Copy `{ManifestCodec} `{Target A} `{Target B} (ctx : Context)
    (from : A) (fromRef : string) (to : B) (toRef : string)
  : B * (Descriptor * option error) :=
  let toRef := if String.eqb toRef EmptyString then fromRef else toRef in
  match Resolve ctx from fromRef with
  | inl e => (to, (Descriptor_zero, Some e))
  | inr root =>
      match Fetch ctx from root with
      | inl e => (to, (Descriptor_zero, Some e))
      | inr data =>
          match children root data with
          | inl e => (to, (Descriptor_zero, Some e))
          | inr descs =>
              match transfer ctx from to toRef descs with
              | (to1, Some e) => (to1, (Descriptor_zero, Some e))
              | (to1, None) =>
                  match Push ctx to1 toRef root data with
                  | inl e => (to1, (Descriptor_zero, Some e))
                  | inr to2 => (to2, (root, None))
                  end
              end
          end
      end
  end.

End oras.

(** ** [pkg/packaging/spec.go] *)

Module packaging.
Import context digest ocispec content.

Definition configMediaType : string :=
  "application/ebpf.oci.image.config.v1+json".
Definition eBPFMediaType : string := "binary/ebpf.solo.io.v1".

Definition ebpfFileName : string := "program.o".
Definition configName : string := "config.json".

Record EbpfConfig : Type := { Info : string }.

(** [embedded] is the embedded field [EbpfConfig]. *)
Record EbpfPackage : Type := {
  ProgramFileBytes : list byte;
  embedded : EbpfConfig
}.

(** *** [encoding/json] at the type [EbpfConfig]

    What the reflective [json.Marshal] and [json.Unmarshal] do for a
    struct whose only field is [Info string `json:"info"`]. *)

Definition field_info : list byte := list_byte_of_string "info".

(** Modelled from the spec: [json.Marshal(cfg)], "JSON-encode the
    config": the object with the one member [info]. *)
Definition json_Marshal (cfg : EbpfConfig) : list byte * option error :=
  (list_byte_of_string "{"
     ++ json.encode_string field_info
     ++ list_byte_of_string ":"
     ++ json.encode_string (list_byte_of_string (Info cfg))
     ++ list_byte_of_string "}",
   None).

(** A key names the field when it is the tag, or equals it up to the
    case of letters. *)
Definition field_matches (key : list byte) : bool :=
  json.bytes_Equal field_info key
  || json.simpleLetterEqualFold field_info key.

(** A value met for the field [Info]: a string is stored, null leaves
    the field as it is, anything else is a type error and is skipped. *)
Definition store_Info (st : EbpfConfig * option error) (v : json.value)
  : EbpfConfig * option error :=
  let '(cfg, saved) := st in
  match v with
  | json.String s => ({| Info := string_of_list_byte s |}, saved)
  | json.Null => (cfg, saved)
  | json.Number _ =>
      (cfg, json.saveError saved (UnmarshalTypeError "number"))
  | json.Bool _ => (cfg, json.saveError saved (UnmarshalTypeError "bool"))
  | json.Array _ =>
      (cfg, json.saveError saved (UnmarshalTypeError "array"))
  | json.Object _ =>
      (cfg, json.saveError saved (UnmarshalTypeError "object"))
  end.

Definition decode_member (st : EbpfConfig * option error)
    (member : list byte * json.value) : EbpfConfig * option error :=
  if field_matches (fst member) then store_Info st (snd member) else st.

Definition decode_config (v : json.value) (cfg : EbpfConfig)
  : EbpfConfig * option error :=
  match v with
  | json.Object members => fold_left decode_member members (cfg, None)
  | json.Null => (cfg, None)
  | json.Array _ => (cfg, Some (UnmarshalTypeError "array"))
  | json.String _ => (cfg, Some (UnmarshalTypeError "string"))
  | json.Number _ => (cfg, Some (UnmarshalTypeError "number"))
  | json.Bool _ => (cfg, Some (UnmarshalTypeError "bool"))
  end.

(** Modelled from the spec: [json.Unmarshal(data, &cfg)], "JSON-decode
    the config entry": the value of [cfg] afterwards, and the error. *)
Definition json_Unmarshal (data : list byte) (cfg : EbpfConfig)
  : EbpfConfig * option error :=
  match json.parse data with
  | None => (cfg, Some SyntaxError)
  | Some v => decode_config v cfg
  end.

(** *** The package *)

Section Registry.
Context `{Algorithm} `{ManifestCodec}.

Definition buildConfigDescriptor (byt : list byte)
    (annotations : option (gmap string string))
  : outcome (Descriptor * option error) :=
  let dig := FromBytes byt in
  let annotations :=
    match annotations with
    | None => Some (∅ : gmap string string)
    | Some _ => annotations
    end in
  annotations ← map_assign annotations AnnotationTitle configName;
  let config := {| MediaType := configMediaType;
                   Digest := dig;
                   Size := Z.of_nat (length byt);
                   Annotations := annotations |} in
  mret (config, None).

(** The body of [Push] up to the copy: the local stage it builds for
    [pkg], or the error it stops with. *)
Definition stage (ref : string) (pkg : option EbpfPackage)
  : outcome (Memory * option error) :=
  let memoryStore := NewMemory in
  pkg ← deref pkg;
  let '(memoryStore, (progDesc, err)) :=
    Add memoryStore ebpfFileName eBPFMediaType (ProgramFileBytes pkg) in
  match err with
  | Some err => mret (memoryStore, Some err)
  | None =>
    let '(configByt, err) := json_Marshal (embedded pkg) in
    match err with
    | Some err => mret (memoryStore, Some err)
    | None =>
      '(configDesc, err) ← buildConfigDescriptor configByt None;
      match err with
      | Some err => mret (memoryStore, Some err)
      | None =>
        let memoryStore := Set_ memoryStore configDesc configByt in
        let '(manifest, manifestDesc, err) :=
          GenerateManifest (Some configDesc) None [progDesc] in
        match err with
        | Some err => mret (memoryStore, Some err)
        | None =>
          let '(memoryStore, err) :=
            StoreManifest memoryStore ref manifestDesc manifest in
          mret (memoryStore, err)
        end
      end
    end
  end.

(** [e.Push(ctx, ref, pkg)].  The receiver holds nothing but the
    handle to the remote registry; [registry] is the state of that
    registry before the call, and the result carries its state
    after. *)
Definition Push (ctx : Context) (ref : string) (pkg : option EbpfPackage)
    (registry : Registry) : outcome (option error * Registry) :=
  '(memoryStore, err) ← stage ref pkg;
  match err with
  | Some err => mret (Some err, registry)
  | None =>
    let '(registry, (_, err)) :=
      oras.Copy ctx memoryStore ref registry EmptyString in
    mret (err, registry)
  end.

(** [e.Pull(ctx, ref)] against the registry state [registry], which
    a pull leaves as it is. *)
Definition Pull (ctx : Context) (ref : string) (registry : Registry)
  : outcome (option EbpfPackage * option error) :=
  let memoryStore := NewMemory in
  let '(memoryStore, (_, err)) :=
    oras.Copy ctx registry ref memoryStore EmptyString in
  match err with
  | Some err => mret (None, Some err)
  | None =>
    let '(_, ebpfBytes, ok) := GetByName memoryStore ebpfFileName in
    if negb ok then
      mret (None, Some (errors_New "could not find ebpf bytes in manifest"))
    else
      let '(_, configBytes, ok) := GetByName memoryStore configName in
      if negb ok then
        mret (None,
              Some (errors_New "could not find ebpf bytes in manifest"))
      else
        let cfg := {| Info := EmptyString |} in
        let '(cfg, err) := json_Unmarshal configBytes cfg in
        match err with
        | Some err => mret (None, Some err)
        | None =>
          mret (Some {| ProgramFileBytes := ebpfBytes; embedded := cfg |},
                None)
        end
  end.

(** *** The registry behind the handle

    [NewEbpfRegistry] keeps the [*content.Registry] it is given, and
    [Push] and [Pull] reach the remote registry through it: what one
    holder of the handle pushes is there for every other holder.
    [Remotes] gives, for each handle, the state of the registry it
    designates; the nil handle is [None]. *)
Definition Handle : Type := nat.
Definition Remotes : Type := Handle -> Registry.

Record ebpfResgistry : Type := { registry : option Handle }.

Definition NewEbpfRegistry (registry : option Handle) : ebpfResgistry :=
  {| registry := registry |}.

(** The method [Push] on the receiver [e].  With a nil handle the
    package is staged as ever, and the copy dereferences the handle. *)
Definition ebpfResgistry_Push (e : ebpfResgistry) (ctx : Context)
    (ref : string) (pkg : option EbpfPackage) (remotes : Remotes)
  : outcome (option error * Remotes) :=
  match registry e with
  | Some h =>
      '(err, r) ← Push ctx ref pkg (remotes h);
      mret (err, <[h := r]> remotes)
  | None =>
      '(_, err) ← stage ref pkg;
      match err with
      | Some err => mret (Some err, remotes)
      | None => Panic nil_dereference
      end
  end.

(** The method [Pull] on the receiver [e]. *)
Definition ebpfResgistry_Pull (e : ebpfResgistry) (ctx : Context)
    (ref : string) (remotes : Remotes)
  : outcome (option EbpfPackage * option error) :=
  h ← deref (registry e);
  Pull ctx ref (remotes h).

End Registry.

End packaging.

(** ** Vocabulary of the statements *)

Module spec.
Import context digest ocispec content oras packaging.

Section Vocabulary.
Context `{Algorithm} `{ManifestCodec}.

(** A registry is content-addressed: every blob sits at the digest of
    its content.  Registries check this on upload. *)
Definition registry_ok (r : Registry) : Prop :=
  forall d data, blobs r !! d = Some data -> FromBytes data = d.

(** The descriptors that program, config and manifest get in [Push],
    and the manifest that binds them. *)
Definition progDesc_of (B : list byte) : Descriptor :=
  {| MediaType := eBPFMediaType; Digest := FromBytes B;
     Size := Z.of_nat (length B);
     Annotations := Some {[ AnnotationTitle := ebpfFileName ]} |}.

Definition configDesc_of (C : list byte) : Descriptor :=
  {| MediaType := configMediaType; Digest := FromBytes C;
     Size := Z.of_nat (length C);
     Annotations := Some (<[ AnnotationTitle := configName ]> ∅) |}.

Definition manifest_of (B C : list byte) : Manifest :=
  {| SchemaVersion := 2; Config := configDesc_of C;
     Layers := [progDesc_of B]; ManifestAnnotations := None |}.

Definition manifestDesc_of (M : list byte) : Descriptor :=
  {| MediaType := MediaTypeImageManifest; Digest := FromBytes M;
     Size := Z.of_nat (length M); Annotations := None |}.

(** The three blobs [Push] writes for program bytes [B] and config
    bytes [C]. *)
Definition written (B C : list byte) : list (list byte) :=
  [B; C; Marshal (manifest_of B C)].

(** The digest tells apart the blobs written for [B] and [C]; and it
    tells them apart from the blobs the registry [r] holds as well. *)
Definition distinct_digests (B C : list byte) : Prop :=
  collision_free_on (fun x => x ∈ written B C).

Definition distinct_digests_in (r : Registry) (B C : list byte) : Prop :=
  collision_free_on
    (fun x => x ∈ written B C \/ exists d, blobs r !! d = Some x).

(** The local stage [Push] builds for program bytes [B] and config
    bytes [C] under [ref]. *)
Definition staged (ref : string) (B C : list byte) : Memory :=
  let M := Marshal (manifest_of B C) in
  {| descriptor :=
       <[FromBytes M := manifestDesc_of M]>
         (<[FromBytes C := configDesc_of C]>
            (<[FromBytes B := progDesc_of B]> ∅));
     content :=
       <[FromBytes M := M]>
         (<[FromBytes C := C]> (<[FromBytes B := B]> ∅));
     nameMap :=
       <[configName := configDesc_of C]>
         (<[ebpfFileName := progDesc_of B]> ∅);
     refMap := <[ref := manifestDesc_of M]> ∅ |}.

(** What an upload of [data] under [desc] leaves in a registry that
    answers: the blob unless one is there already, and the reference
    when [desc] is a manifest. *)
Definition put (r : Registry) (ref : string) (desc : Descriptor)
    (data : list byte) : Registry :=
  {| blobs := match blobs r !! Digest desc with
              | Some _ => blobs r
              | None => <[Digest desc := data]> (blobs r)
              end;
     tags := if String.eqb (MediaType desc) MediaTypeImageManifest
             then <[ref := desc]> (tags r)
             else tags r;
     fault := fault r |}.

(** The registry after a successful [Push] of [B] and [C] under
    [ref]. *)
Definition pushed (r : Registry) (ref : string) (B C : list byte)
  : Registry :=
  let M := Marshal (manifest_of B C) in
  put (put (put r ref (configDesc_of C) C) ref (progDesc_of B) B)
      ref (manifestDesc_of M) M.

(** The memory store after it received [data] under [desc] through a
    pusher opened for [ref]. *)
Definition received (s : Memory) (ref : string) (desc : Descriptor)
    (data : list byte) : Memory :=
  match content.Push Background s ref desc data with
  | inr s' => s'
  | inl _ => s
  end.

(** The descriptor map has an entry for the digest [d]. *)
Definition described (m : gmap string Descriptor) (d : string) : Prop :=
  exists desc, m !! d = Some desc /\ Digest desc = d.

(** The descriptors a copy of [ref] out of [r] brings along: those the
    manifest lists, and the root. *)
Definition copied (ctx : Context) (r : Registry) (ref : string)
  : list Descriptor :=
  match Resolve ctx r ref with
  | inr root =>
      match Fetch ctx r root with
      | inr data =>
          match children root data with
          | inr descs => descs ++ [root]
          | inl _ => []
          end
      | inl _ => []
      end
  | inl _ => []
  end.

(** [desc] is an entry named [name]. *)
Definition titled (name : string) (desc : Descriptor) : Prop :=
  ResolveName desc = (name, true).

#[export] Instance titled_dec name desc : Decision (titled name desc).
Proof. unfold titled. apply _. Defined.

(** The content of the registry at [ref]: the root the reference
    resolves to, the blob of the root and, for each descriptor the
    root refers to, the blob at its digest. *)
Definition artifact_at (r : Registry) (ref : string)
  : option (Descriptor * option (list byte)
            * list (Descriptor * option (list byte))) :=
  match tags r !! ref with
  | None => None
  | Some root =>
      Some (root, blobs r !! Digest root,
            match blobs r !! Digest root with
            | Some data =>
                match children root data with
                | inr descs => (fun d => (d, blobs r !! Digest d)) <$> descs
                | inl _ => []
                end
            | None => []
            end)
  end.

(** [r'] holds what [r] holds, but for the reference [ref]: every
    blob of [r] as it was, every other reference as it was, and the
    same fault. *)
Definition extends (ref : string) (r r' : Registry) : Prop :=
  (forall d x, blobs r !! d = Some x -> blobs r' !! d = Some x)
  /\ (forall ref', ref' <> ref -> tags r' !! ref' = tags r !! ref')
  /\ fault r' = fault r.

(** Members of a config document, as [json.Unmarshal] treats them
    for [EbpfConfig]: a member is [skipped] when its key does not
    name the field or its value is null, and [mismatched] when its
    key names the field and its value is neither a string nor
    null. *)
Definition skipped (member : list byte * json.value) : Prop :=
  field_matches (fst member) = false \/ snd member = json.Null.

Definition mismatched (member : list byte * json.value) : Prop :=
  field_matches (fst member) = true
  /\ (forall s, snd member <> json.String s)
  /\ snd member <> json.Null.

Definition type_error (e : option error) : Prop :=
  exists what, e = Some (UnmarshalTypeError what).

End Vocabulary.
End spec.

(** ** A concrete digest and a concrete manifest codec

    Instances at which the parametric statements can be run: a digest
    that spells out the content it stands for (so that it has no
    collisions), and a manifest codec that writes the bits of an
    enumeration of manifests. *)

Module instances.
Import digest ocispec content packaging spec.

Definition spelled_digest : Algorithm :=
  fun data => String.append "plain:" (string_of_list_byte data).

Definition Descriptor_tuple (d : Descriptor) :=
  (MediaType d, Digest d, Size d, Annotations d).
Definition tuple_Descriptor
    (t : string * string * Z * option (gmap string string)) : Descriptor :=
  let '(m, d, s, a) := t in
  {| MediaType := m; Digest := d; Size := s; Annotations := a |}.

#[export] Instance Descriptor_countable : Countable Descriptor :=
  inj_countable' Descriptor_tuple tuple_Descriptor
    (fun d => match d with Build_Descriptor _ _ _ _ => eq_refl end).

Definition Manifest_tuple (m : Manifest) :=
  (SchemaVersion m, Config m, Layers m, ManifestAnnotations m).
Definition tuple_Manifest
    (t : Z * Descriptor * list Descriptor * option (gmap string string))
  : Manifest :=
  let '(v, c, l, a) := t in
  {| SchemaVersion := v; Config := c; Layers := l;
     ManifestAnnotations := a |}.

#[export] Instance Manifest_eq_dec : EqDecision Manifest.
Proof. solve_decision. Defined.

#[export] Instance Manifest_countable : Countable Manifest :=
  inj_countable' Manifest_tuple tuple_Manifest
    (fun m => match m with Build_Manifest _ _ _ _ => eq_refl end).

(** The bits of a positive number, least significant first, as the
    bytes [0] and [1]. *)
Fixpoint bits_of_positive (p : positive) : list byte :=
  match p with
  | xH => []
  | xO p' => x30 :: bits_of_positive p'
  | xI p' => x31 :: bits_of_positive p'
  end.

Fixpoint positive_of_bits (l : list byte) : option positive :=
  match l with
  | [] => Some xH
  | b :: l' =>
      match positive_of_bits l' with
      | Some p =>
          if Byte.eqb b x30 then Some (xO p)
          else if Byte.eqb b x31 then Some (xI p)
          else None
      | None => None
      end
  end.

Definition bits_codec : ManifestCodec := {|
  Marshal m := bits_of_positive (encode m);
  Unmarshal data :=
    match positive_of_bits data with
    | Some p => decode p
    | None => None
    end
|}.


(** An empty registry that answers, and a push into it. *)
Definition registry0 : content.Registry :=
  {| content.blobs := ∅; content.tags := ∅; content.fault := None |}.

Definition example_ref : string := "registry.example.com/ns/name:tag".

(** The first bytes of an ELF object file. *)
Definition example_program : list byte := [x7f; x45; x4c; x46].

(** The bytes of [s] between double quotes, and [s] with each
    apostrophe turned into a double quote: for writing JSON text. *)
Definition quoted (s : string) : list byte :=
  json.quote :: list_byte_of_string s ++ [json.quote].

Definition json_text (s : string) : list byte :=
  map (fun b => if Byte.eqb b x27 then json.quote else b)
      (list_byte_of_string s).

(** A Go string that is not UTF-8: the single byte [0xFF]. *)
Definition invalid_info : string := string_of_list_byte [xff].

Definition example_package : EbpfPackage :=
  {| ProgramFileBytes := example_program;
     embedded := {| Info := "hello" |} |}.

Section Registries.
#[local] Existing Instance spelled_digest.
#[local] Existing Instance bits_codec.

Definition example_config : list byte :=
  fst (json_Marshal (embedded example_package)).

(** The registry after [example_package] was pushed. *)
Definition example_registry : Registry :=
  pushed registry0 example_ref example_program example_config.

(** The same artifact in a registry that holds another one too. *)
Definition busy_registry : Registry :=
  pushed example_registry "registry.example.com/ns/other:tag"
         [x00] example_config.

(** An artifact whose manifest lists a config and no layer. *)
Definition config_only : Manifest :=
  {| SchemaVersion := 2; Config := configDesc_of example_config;
     Layers := []; ManifestAnnotations := None |}.

Definition no_program_registry : Registry :=
  put (put registry0 example_ref
           (configDesc_of example_config) example_config)
      example_ref
      (manifestDesc_of (Marshal config_only)) (Marshal config_only).

(** An artifact whose config carries no title. *)
Definition untitled_config : Descriptor :=
  {| MediaType := configMediaType;
     Digest := FromBytes example_config;
     Size := Z.of_nat (length example_config);
     Annotations := None |}.

Definition untitled : Manifest :=
  {| SchemaVersion := 2; Config := untitled_config;
     Layers := [progDesc_of example_program];
     ManifestAnnotations := None |}.

Definition no_config_registry : Registry :=
  put (put (put registry0 example_ref untitled_config example_config)
           example_ref (progDesc_of example_program) example_program)
      example_ref
      (manifestDesc_of (Marshal untitled)) (Marshal untitled).

(** An artifact whose config entry is not JSON. *)
Definition bad_config_registry : Registry :=
  pushed registry0 example_ref example_program
         (list_byte_of_string "oops").
(** A registry that answers every request with an error. *)
Definition down_registry : Registry :=
  {| blobs := ∅; tags := ∅;
     fault := Some (RegistryError "service unavailable") |}.

(** Another reference and another package, whose push takes
    [example_registry] to [busy_registry]. *)
Definition other_ref : string := "registry.example.com/ns/other:tag".

Definition other_package : EbpfPackage :=
  {| ProgramFileBytes := [x00]; embedded := {| Info := "hello" |} |}.

(** Artifacts whose config entry is a JSON document of another
    shape: without the field, with a number for the field, and with
    the field twice among other members. *)
Definition no_info_config : list byte := json_text "{'name':'probe'}".
Definition number_info_config : list byte := json_text "{'info':7}".
Definition loose_config : list byte :=
  json_text "{'INFO':'a','x':[1],'Info':'b'}".

Definition no_info_registry : Registry :=
  pushed registry0 example_ref example_program no_info_config.
Definition number_info_registry : Registry :=
  pushed registry0 example_ref example_program number_info_config.
Definition loose_config_registry : Registry :=
  pushed registry0 example_ref example_program loose_config.

(** Handles that all designate empty registries. *)
Definition example_remotes : Remotes := fun _ => registry0.
End Registries.

End instances.

(** * Properties *)

(** ** Bytes and bit operations *)

Module GoFacts.

Lemma b2z_range b : 0 <= b2z b < 256.
Proof.
  unfold b2z. pose proof (Byte.to_N_bounded b) as H. lia.
Qed.

Lemma z2b_b2z b : z2b (b2z b) = b.
Proof.
  unfold z2b. pose proof (b2z_range b) as H.
  rewrite Z.mod_small by lia. unfold b2z.
  rewrite N2Z.id, Byte.of_to_N. reflexivity.
Qed.

Lemma b2z_z2b z : b2z (z2b z) = z mod 256.
Proof.
  unfold z2b, b2z.
  assert (Hr : 0 <= z mod 256 < 256) by (apply Z.mod_pos_bound; lia).
  destruct (Byte.of_N (Z.to_N (z mod 256))) as [b|] eqn:E.
  - apply Byte.to_of_N in E. rewrite E. lia.
  - apply Byte.of_N_None_iff in E. lia.
Qed.

Lemma lor_add k x y :
  0 <= k -> x mod 2 ^ k = 0 -> 0 <= y < 2 ^ k -> Z.lor x y = x + y.
Proof.
  intros Hk Hx Hy.
  assert (Hpos : 0 < 2 ^ k) by (apply Z.pow_pos_nonneg; lia).
  assert (Hland : Z.land x y = 0).
  { apply Z.bits_inj'. intros n Hn. rewrite Z.land_spec, Z.bits_0.
    destruct (Z.lt_ge_cases n k) as [Hlt|Hge].
    - rewrite (Z.div_mod x (2 ^ k)) by lia. rewrite Hx, Z.add_0_r.
      rewrite Z.mul_comm, Z.mul_pow2_bits_low by lia. reflexivity.
    - destruct (Z.eq_dec y 0) as [->|Hy0];
        [rewrite Z.bits_0; apply andb_false_r|].
      rewrite (Z.bits_above_log2 y n); [apply andb_false_r|lia|].
      apply Z.log2_lt_pow2; [lia|].
      apply Z.lt_le_trans with (2 ^ k); [lia|].
      apply Z.pow_le_mono_r; lia. }
  rewrite <- Z.lxor_lor by exact Hland.
  symmetry. apply Z.add_nocarry_lxor. exact Hland.
Qed.

Lemma land_mask k x : 0 <= k -> Z.land x (2 ^ k - 1) = x mod 2 ^ k.
Proof.
  intros Hk. replace (2 ^ k - 1) with (Z.ones k).
  - apply Z.land_ones. exact Hk.
  - rewrite Z.ones_equiv. lia.
Qed.

End GoFacts.

(** ** The rune decoder and encoder *)

Module utf8_facts.
Import GoFacts utf8.

(** The bit patterns of the decoder and the encoder, as arithmetic. *)
Ltac arith := first [reflexivity | lia | (Z.div_mod_to_equations; lia)].

Lemma lor_plus m k x y :
  m = 2 ^ k -> 0 <= k -> x mod m = 0 -> 0 <= y < m -> Z.lor x y = x + y.
Proof. intros ->. apply lor_add. Qed.

Lemma land_minus m k x lo :
  m = 2 ^ k - 1 -> 0 <= k -> lo mod (m + 1) = 0 -> lo <= x <= lo + m ->
  Z.land x m = x - lo.
Proof.
  intros -> Hk Hlo Hx. rewrite land_mask by exact Hk.
  replace (2 ^ k - 1 + 1) with (2 ^ k) in Hlo by lia.
  assert (Hpos : 0 < 2 ^ k) by (apply Z.pow_pos_nonneg; lia).
  replace x with ((x - lo) + (lo / 2 ^ k) * 2 ^ k) at 1.
  - rewrite Z.mod_add by lia. apply Z.mod_small. lia.
  - pose proof (Z.div_mod lo (2 ^ k)). lia.
Qed.

Lemma shl_times k m x : m = 2 ^ k -> 0 <= k -> Z.shiftl x k = x * m.
Proof. intros -> Hk. apply Z.shiftl_mul_pow2. exact Hk. Qed.

Lemma shr_div k m x : m = 2 ^ k -> 0 <= k -> Z.shiftr x k = x / m.
Proof. intros -> Hk. apply Z.shiftr_div_pow2. exact Hk. Qed.

Lemma rune2_arith p0 b1 :
  0xC0 <= p0 <= 0xDF -> 0x80 <= b1 <= 0xBF ->
  Z.lor (Z.shiftl (Z.land p0 mask2) 6) (Z.land b1 maskx)
  = (p0 - 0xC0) * 64 + (b1 - 0x80).
Proof.
  intros H0 H1.
  rewrite (land_minus mask2 5 p0 0xC0), (land_minus maskx 6 b1 0x80)
    by (unfold mask2, maskx; arith).
  rewrite (shl_times 6 64) by arith.
  rewrite (lor_plus 64 6) by arith. reflexivity.
Qed.

Lemma rune3_arith p0 b1 b2 :
  0xE0 <= p0 <= 0xEF -> 0x80 <= b1 <= 0xBF -> 0x80 <= b2 <= 0xBF ->
  Z.lor (Z.lor (Z.shiftl (Z.land p0 mask3) 12)
               (Z.shiftl (Z.land b1 maskx) 6))
        (Z.land b2 maskx)
  = (p0 - 0xE0) * 4096 + (b1 - 0x80) * 64 + (b2 - 0x80).
Proof.
  intros H0 H1 H2.
  rewrite (land_minus mask3 4 p0 0xE0), (land_minus maskx 6 b1 0x80),
    (land_minus maskx 6 b2 0x80) by (unfold mask3, maskx; arith).
  rewrite (shl_times 12 4096), (shl_times 6 64) by arith.
  rewrite (lor_plus 4096 12 ((p0 - 224) * 4096)) by arith.
  rewrite (lor_plus 64 6) by arith. reflexivity.
Qed.

Lemma rune4_arith p0 b1 b2 b3 :
  0xF0 <= p0 <= 0xF7 -> 0x80 <= b1 <= 0xBF -> 0x80 <= b2 <= 0xBF ->
  0x80 <= b3 <= 0xBF ->
  Z.lor (Z.lor (Z.lor (Z.shiftl (Z.land p0 mask4) 18)
                      (Z.shiftl (Z.land b1 maskx) 12))
               (Z.shiftl (Z.land b2 maskx) 6))
        (Z.land b3 maskx)
  = (p0 - 0xF0) * 262144 + (b1 - 0x80) * 4096 + (b2 - 0x80) * 64
    + (b3 - 0x80).
Proof.
  intros H0 H1 H2 H3.
  rewrite (land_minus mask4 3 p0 0xF0), (land_minus maskx 6 b1 0x80),
    (land_minus maskx 6 b2 0x80), (land_minus maskx 6 b3 0x80)
    by (unfold mask4, maskx; arith).
  rewrite (shl_times 18 262144), (shl_times 12 4096), (shl_times 6 64)
    by arith.
  rewrite (lor_plus 262144 18 ((p0 - 240) * 262144)) by arith.
  rewrite (lor_plus 4096 12 ((p0 - 240) * 262144 + _)) by arith.
  rewrite (lor_plus 64 6) by arith. reflexivity.
Qed.

(** The table [first], as ranges of the leading byte. *)
Lemma first_spec p0 : first_class p0 (first p0).
Proof.
  unfold first.
  repeat match goal with
  | |- context [if ?a <? ?b then _ else _] => destruct (Z.ltb_spec a b)
  | |- context [if ?a =? ?b then _ else _] => destruct (Z.eqb_spec a b)
  end; constructor; lia.
Qed.

Ltac zbool H :=
  repeat match type of H with
  | context [?a <? ?b] => destruct (Z.ltb_spec a b)
  | context [?a =? ?b] => destruct (Z.eqb_spec a b)
  | context [?a <=? ?b] => destruct (Z.leb_spec a b)
  end.

Ltac table_consts H :=
  unfold as_, xx, s1, s2, s3, s4, s5, s6, s7, locb, hicb in H;
  repeat match type of H with
  | context [Z.to_nat (Z.land ?x 7)] =>
      let v := eval vm_compute in (Z.to_nat (Z.land x 7)) in
      change (Z.to_nat (Z.land x 7)) with v in H
  | context [acceptRanges ?x] =>
      let v := eval vm_compute in (acceptRanges x) in
      change (acceptRanges x) with v in H
  | context [?a <=? ?b] =>
      let v := eval vm_compute in (a <=? b) in
      change (a <=? b) with v in H
  | context [?a =? ?b] =>
      let v := eval vm_compute in (a =? b) in
      change (a =? b) with v in H
  end; cbn in H.

Ltac zbool_goal :=
  repeat match goal with
  | |- context [?a <? ?b] => destruct (Z.ltb_spec a b)
  | |- context [?a =? ?b] => destruct (Z.eqb_spec a b)
  | |- context [?a <=? ?b] => destruct (Z.leb_spec a b)
  end.

Lemma DecodeRune_wellformed p r size :
  p <> [] -> DecodeRune p = (r, size) -> (r, size) <> (RuneError, 1%nat) ->
  wellformed p r size.
Proof.
  intros Hne H Hbad. destruct p as [|c0 p1]; [congruence|]. clear Hne.
  unfold DecodeRune in H. pose proof (b2z_range c0) as R0.
  destruct (first_spec (b2z c0)) as [F|F|F|F|F|F|F|F|F]; table_consts H.
  all: try (injection H as <- <-; first [congruence | apply wf1; lia]).
  all: destruct p1 as [|c1 p2]; [simpl in H; congruence|].
  all: pose proof (b2z_range c1) as R1.
  all: destruct p2 as [|c2 p3]; [|pose proof (b2z_range c2) as R2];
    [|destruct p3 as [|c3 p4]; [|pose proof (b2z_range c3) as R3]].
  all: simpl in H; zbool H; simpl in H; try congruence; try (exfalso; lia).
  all: injection H as <- <-.
  all: first
    [ rewrite rune2_arith by lia; apply wf2; lia
    | rewrite rune3_arith by lia; apply wf3;
      unfold second_lo, second_hi; zbool_goal; lia
    | rewrite rune4_arith by lia; apply wf4;
      unfold second_lo, second_hi; zbool_goal; lia ].
Qed.

Ltac table_consts_goal :=
  unfold as_, xx, s1, s2, s3, s4, s5, s6, s7, locb, hicb;
  repeat match goal with
  | |- context [Z.to_nat (Z.land ?x 7)] =>
      let v := eval vm_compute in (Z.to_nat (Z.land x 7)) in
      change (Z.to_nat (Z.land x 7)) with v
  | |- context [acceptRanges ?x] =>
      let v := eval vm_compute in (acceptRanges x) in
      change (acceptRanges x) with v
  | |- context [?a <=? ?b] =>
      let v := eval vm_compute in (a <=? b) in
      change (a <=? b) with v
  | |- context [?a =? ?b] =>
      let v := eval vm_compute in (a =? b) in
      change (a =? b) with v
  end; cbn.

Lemma wellformed_DecodeRune p r size :
  wellformed p r size -> DecodeRune p = (r, size).
Proof.
  intros W. destruct W as [c p Hc|c0 c1 p H0 H1|c0 c1 c2 p H0 H1 H2
                           |c0 c1 c2 c3 p H0 H1 H2 H3];
    unfold second_lo, second_hi in *; unfold DecodeRune.
  all: destruct (first_spec (b2z c0)) as [F|F|F|F|F|F|F|F|F] ||
       destruct (first_spec (b2z c)) as [F|F|F|F|F|F|F|F|F].
  all: repeat match goal with
       | H : context [?a =? ?b] |- _ => destruct (Z.eqb_spec a b)
       end.
  all: try (exfalso; lia).
  all: table_consts_goal; simpl.
  all: try reflexivity.
  all: zbool_goal; try (exfalso; lia); simpl.
  all: first [ rewrite rune2_arith by lia | rewrite rune3_arith by lia
             | rewrite rune4_arith by lia ]; reflexivity.
Qed.

Lemma land_mod m k x :
  m = 2 ^ k - 1 -> 0 <= k -> Z.land x m = x mod (m + 1).
Proof.
  intros -> Hk. rewrite land_mask by exact Hk. f_equal. lia.
Qed.

Lemma encode_cont x c :
  0x80 <= b2z c <= 0xBF -> x mod 64 = b2z c - 0x80 ->
  z2b (Z.lor tx (Z.land (b2z (z2b x)) maskx)) = c.
Proof.
  intros Hc Hx. rewrite b2z_z2b.
  rewrite (land_mod maskx 6) by (unfold maskx; arith). unfold maskx.
  replace ((x mod 256) mod (63 + 1)) with (b2z c - 0x80) by arith.
  rewrite (lor_plus 64 6) by (unfold tx; arith).
  rewrite <- (z2b_b2z c) at 2. f_equal. unfold tx. lia.
Qed.

Lemma encode_lead t m k x c :
  m = 2 ^ k -> 0 <= k -> t mod m = 0 -> 0 <= x < m -> m <= 256 ->
  t + x = b2z c ->
  z2b (Z.lor t (b2z (z2b x))) = c.
Proof.
  intros Hm Hk Ht Hx Hm' Hc. rewrite b2z_z2b.
  rewrite Z.mod_small by lia.
  rewrite (lor_plus m k) by assumption.
  rewrite Hc. apply z2b_b2z.
Qed.

Lemma wellformed_EncodeRune p r size :
  wellformed p r size -> EncodeRune r = take size p.
Proof.
  intros W. destruct W as [c p Hc|c0 c1 p H0 H1|c0 c1 c2 p H0 H1 H2
                           |c0 c1 c2 c3 p H0 H1 H2 H3];
    unfold second_lo, second_hi in *.
  all: repeat match goal with
       | H : context [?a =? ?b] |- _ => destruct (Z.eqb_spec a b)
       end.
  all: try pose proof (b2z_range c) as R.
  all: unfold EncodeRune, encode3, rune1Max, rune2Max, rune3Max, MaxRune,
         surrogateMin, surrogateMax.
  all: rewrite Z.mod_small by lia.
  all: zbool_goal; try (exfalso; lia); simpl.
  all: repeat (f_equal; try apply z2b_b2z).
  all: rewrite ?(shr_div 6 64), ?(shr_div 12 4096), ?(shr_div 18 262144)
         by arith.
  all: try (apply encode_cont; [lia | arith]).
  all: first [ apply (encode_lead t2 32 5) | apply (encode_lead t3 16 4)
             | apply (encode_lead t4 8 3) ]; unfold t2, t3, t4; arith.
Qed.

Lemma wellformed_prefix p r size t :
  wellformed p r size -> wellformed (take size p ++ t) r size.
Proof. intros W. destruct W; simpl; constructor; assumption. Qed.

Lemma wellformed_size p r size :
  wellformed p r size -> (1 <= size <= length p)%nat.
Proof. intros W. destruct W; simpl; lia. Qed.

Lemma wellformed_not_error p r size :
  wellformed p r size -> (r =? RuneError) && (size =? 1)%nat = false.
Proof.
  intros W. destruct W; try (apply andb_false_r).
  apply andb_false_intro1. apply Z.eqb_neq. unfold RuneError. lia.
Qed.

Ltac second_bounds :=
  unfold second_lo, second_hi in *;
  repeat match goal with
  | H : context [?a =? ?b] |- _ => destruct (Z.eqb_spec a b)
  end.

(** A well-formed sequence encodes a scalar value in the range of its
    width, never a surrogate. *)
Lemma wellformed_range p r size :
  wellformed p r size ->
  (size = 1%nat /\ 0 <= r < 0x80 /\ exists c tl, p = c :: tl /\ r = b2z c)
  \/ (size = 2%nat /\ 0x80 <= r <= 0x7FF)
  \/ (size = 3%nat /\ 0x800 <= r <= 0xFFFF
      /\ ~ (surrogateMin <= r <= surrogateMax))
  \/ (size = 4%nat /\ 0x10000 <= r <= MaxRune).
Proof.
  intros W. destruct W as [c p Hc|c0 c1 p H0 H1|c0 c1 c2 p H0 H1 H2
                           |c0 c1 c2 c3 p H0 H1 H2 H3];
    unfold surrogateMin, surrogateMax, MaxRune; second_bounds.
  all: try (pose proof (b2z_range c); left;
            split; [reflexivity|split; [lia|eauto]]).
  all: try (right; left; split; [reflexivity|lia]).
  all: try (right; right; left; split; [reflexivity|lia]).
  all: right; right; right; split; [reflexivity|lia].
Qed.

Lemma wellformed_high c tl r size :
  wellformed (c :: tl) r size -> RuneSelf <= b2z c -> RuneSelf <= r.
Proof.
  intros W Hc. unfold RuneSelf in *.
  destruct (wellformed_range _ _ _ W)
    as [(_ & _ & c' & tl' & E & ->)|[H|[H|H]]]; [|lia..].
  injection E as <- <-. exact Hc.
Qed.

(** Every outcome of [DecodeRune] on a non-empty input: a well-formed
    prefix, or the error rune with width one. *)
Lemma DecodeRune_cases p :
  p <> [] ->
  (exists r size, DecodeRune p = (r, size) /\ wellformed p r size)
  \/ DecodeRune p = (RuneError, 1%nat).
Proof.
  intros Hne. destruct (DecodeRune p) as [r size] eqn:E.
  destruct (Z.eq_dec r RuneError) as [Hr|Hr];
    [destruct (Nat.eq_dec size 1%nat) as [Hs|Hs]|].
  - right. congruence.
  - left. exists r, size. split; [reflexivity|].
    apply DecodeRune_wellformed; congruence.
  - left. exists r, size. split; [reflexivity|].
    apply DecodeRune_wellformed; congruence.
Qed.

End utf8_facts.

(** ** Strings written by the encoder and read by the decoder *)

Module json_facts.
Import GoFacts utf8 utf8_facts json.

Lemma unquote_plain c f t :
  htmlSafeSet (b2z c) = true ->
  unquote_loop (S f) (c :: t) = continue f [c] t.
Proof.
  destruct c; intros H; try (vm_compute in H; discriminate H); reflexivity.
Qed.

Lemma unquote_escape_ascii c f t :
  (b2z c <? RuneSelf) = true -> htmlSafeSet (b2z c) = false ->
  unquote_loop (S f) (escape_ascii c ++ t) = continue f [c] t.
Proof.
  destruct c; intros H1 H2; try (vm_compute in H2; discriminate H2);
    try (vm_compute in H1; discriminate H1); reflexivity.
Qed.

Lemma unquote_loop_unfold f c r :
  unquote_loop (S f) (c :: r) =
    if b2z c =? 0x22 then Some ([], r)
    else if b2z c =? 0x5C then
      match r with
      | [] => None
      | e :: r' =>
        match simple_escape (b2z e) with
        | Some b => continue f [b] r'
        | None =>
          if b2z e =? 0x75 then
            let rr := getu4 (c :: r) in
            if rr <? 0 then None
            else
              let r6 := drop 6 (c :: r) in
              if utf16.IsSurrogate rr then
                let dec := utf16.DecodeRune rr (getu4 r6) in
                if negb (dec =? RuneError)
                then continue f (EncodeRune dec) (drop 6 r6)
                else continue f (EncodeRune RuneError) r6
              else continue f (EncodeRune rr) r6
          else None
        end
      end
    else if b2z c <? 0x20 then None
    else if b2z c <? RuneSelf then continue f [c] r
    else
      let '(rr, size) := DecodeRune (c :: r) in
      continue f (EncodeRune rr) (drop size (c :: r)).
Proof. reflexivity. Qed.

Lemma unquote_replacement f t :
  unquote_loop (S f) ((backslash :: list_byte_of_string "ufffd") ++ t)
  = continue f (EncodeRune RuneError) t.
Proof. reflexivity. Qed.

Lemma unquote_line_separator r f t :
  r = 0x2028 \/ r = 0x2029 ->
  unquote_loop (S f)
    ((backslash :: list_byte_of_string "u202" ++ [hex (Z.land r 0xF)]) ++ t)
  = continue f (EncodeRune r) t.
Proof. intros [-> | ->]; reflexivity. Qed.

Lemma unquote_rune s r size f t :
  wellformed s r size -> RuneSelf <= r ->
  unquote_loop (S f) (take size s ++ t) = continue f (take size s) t.
Proof.
  intros W Hr.
  pose proof (wellformed_prefix s r size t W) as W'.
  pose proof (wellformed_EncodeRune _ _ _ W) as HE.
  pose proof (wellformed_DecodeRune _ _ _ W') as HD.
  pose proof (wellformed_size _ _ _ W) as Hsz.
  assert (Hdrop : drop size (take size s ++ t) = t).
  { rewrite drop_app_length'; [reflexivity|]. rewrite length_take. lia. }
  destruct W as [c p Hc|c0 c1 p H0 H1|c0 c1 c2 p H0 H1 H2
                 |c0 c1 c2 c3 p H0 H1 H2 H3]; unfold RuneSelf in *;
    [lia| | |].
  all: cbn [take firstn app] in *.
  all: rewrite unquote_loop_unfold.
  all: pose proof (b2z_range c0) as R0; unfold RuneSelf.
  all: repeat match goal with
       | |- context [if ?a =? ?b then _ else _] =>
           destruct (Z.eqb_spec a b); [exfalso; lia|]
       | |- context [if ?a <? ?b then _ else _] =>
           destruct (Z.ltb_spec a b); [exfalso; lia|]
       end.
  all: rewrite HD, HE, Hdrop; reflexivity.
Qed.

Lemma continue_some f out rest d rest' :
  unquote_loop f rest = Some (d, rest') ->
  continue f out rest = Some (out ++ d, rest').
Proof. unfold continue. intros ->. reflexivity. Qed.

Lemma escape_ascii_length c : (1 <= length (escape_ascii c))%nat.
Proof.
  unfold escape_ascii.
  repeat match goal with
  | |- context [if ?b then _ else _] => destruct b
  end; simpl; lia.
Qed.

(** Reading back what [encodeState.string] wrote. *)
Lemma unquote_string_loop n : forall s f rest,
  (length (string_loop n s) < f)%nat ->
  unquote_loop f (string_loop n s ++ quote :: rest)
  = Some (coerce_loop n s, rest).
Proof.
  induction n as [|n IH]; intros s f rest Hf.
  - destruct f; [simpl in Hf; lia|]. reflexivity.
  - destruct f as [|f]; [lia|].
    destruct s as [|c tl]; [reflexivity|].
    cbn [string_loop coerce_loop] in *. revert Hf.
    destruct (Z.ltb_spec (b2z c) RuneSelf) as [Hlt|Hge].
    + (* an ASCII byte *)
      assert (W : wellformed (c :: tl) (b2z c) 1)
        by (apply wf1; unfold RuneSelf in Hlt; lia).
      rewrite (wellformed_DecodeRune _ _ _ W).
      rewrite (wellformed_not_error _ _ _ W).
      cbn [take firstn]. change (drop 1 (c :: tl)) with tl.
      destruct (htmlSafeSet (b2z c)) eqn:Hsafe; intros Hf.
      * rewrite <- app_comm_cons, unquote_plain by exact Hsafe.
        apply continue_some, IH. simpl in Hf. lia.
      * rewrite <- app_assoc, unquote_escape_ascii
          by (try apply Z.ltb_lt; assumption).
        apply continue_some, IH.
        rewrite length_app in Hf. pose proof (escape_ascii_length c). lia.
    + destruct (DecodeRune_cases (c :: tl)) as [(r & size & HD & W)|HD];
        [discriminate| |]; rewrite HD.
      * (* a well-formed rune *)
        rewrite (wellformed_not_error _ _ _ W).
        pose proof (wellformed_size _ _ _ W) as Hsz.
        assert (Hr : RuneSelf <= r).
        { apply (wellformed_high _ _ _ _ W Hge). }
        destruct ((r =? 0x2028) || (r =? 0x2029)) eqn:Hsep; intros Hf.
        -- rewrite <- app_assoc, unquote_line_separator by
             (apply orb_true_iff in Hsep; destruct Hsep as [H|H];
              apply Z.eqb_eq in H; auto).
           rewrite (wellformed_EncodeRune _ _ _ W).
           apply continue_some, IH.
           rewrite length_app in Hf. simpl in Hf. lia.
        -- rewrite <- app_assoc, (unquote_rune _ r) by assumption.
           apply continue_some, IH.
           rewrite length_app, length_take in Hf. lia.
      * (* an invalid byte *)
        rewrite Z.eqb_refl. cbn [andb Nat.eqb].
        change (drop 1 (c :: tl)) with tl. intros Hf.
        rewrite <- app_assoc, unquote_replacement.
        apply continue_some, IH.
        rewrite length_app in Hf. simpl in Hf. lia.
Qed.

Lemma unquote_encoded s rest :
  unquote (string_loop (length s) s ++ quote :: rest)
  = Some (coerce s, rest).
Proof.
  unfold unquote, coerce. apply unquote_string_loop.
  rewrite length_app. simpl. lia.
Qed.

(** On well-formed UTF-8 the coercion changes nothing. *)
Lemma coerce_loop_valid n : forall s,
  valid_loop n s = true -> coerce_loop n s = s.
Proof.
  induction n as [|n IH]; intros s Hv.
  - destruct s; [reflexivity|discriminate].
  - destruct s as [|c tl]; [reflexivity|].
    cbn [valid_loop coerce_loop] in *.
    destruct (DecodeRune (c :: tl)) as [r size].
    destruct ((r =? RuneError) && (size =? 1)%nat); [discriminate|].
    rewrite (IH _ Hv). apply take_drop.
Qed.

Lemma coerce_valid s : Valid s = true -> coerce s = s.
Proof. apply coerce_loop_valid. Qed.

End json_facts.

(** ** The codecs on small inputs *)

Module examples.
Import utf8 json packaging instances.

Example DecodeRune_euro : DecodeRune [xe2; x82; xac; x21] = (0x20AC, 3%nat).
Proof. reflexivity. Qed.

Example EncodeRune_euro : EncodeRune 0x20AC = [xe2; x82; xac].
Proof. reflexivity. Qed.

Example DecodeRune_overlong : DecodeRune [xc0; x80] = (RuneError, 1%nat).
Proof. reflexivity. Qed.

Example DecodeRune_surrogate :
  DecodeRune [xed; xa0; x80] = (RuneError, 1%nat).
Proof. reflexivity. Qed.

Example DecodeRune_truncated : DecodeRune [xe2; x82] = (RuneError, 1%nat).
Proof. reflexivity. Qed.

Example Valid_ok : Valid (list_byte_of_string "hello") = true.
Proof. reflexivity. Qed.

Example Valid_invalid : Valid (list_byte_of_string invalid_info) = false.
Proof. reflexivity. Qed.

Example Marshal_hello :
  fst (json_Marshal {| Info := "hello" |}) = json_text "{'info':'hello'}".
Proof. reflexivity. Qed.

Example Marshal_html :
  fst (json_Marshal {| Info := "a<b>&c" |})
  = json_text "{'info':'a\u003cb\u003e\u0026c'}".
Proof. reflexivity. Qed.

Example Marshal_control :
  fst (json_Marshal {| Info := string_of_list_byte [x0a; x01; x09] |})
  = json_text "{'info':'\n\u0001\t'}".
Proof. reflexivity. Qed.

Example Marshal_quote :
  fst (json_Marshal {| Info := string_of_list_byte [x22; x5c] |})
  = list_byte_of_string "{" ++ quoted "info" ++ list_byte_of_string ":"
    ++ [x22; x5c; x22; x5c; x5c; x22] ++ list_byte_of_string "}".
Proof. reflexivity. Qed.

Example Marshal_invalid :
  fst (json_Marshal {| Info := invalid_info |})
  = json_text "{'info':'\ufffd'}".
Proof. reflexivity. Qed.

Example Unmarshal_hello :
  json_Unmarshal (json_text "{'info':'hello'}") {| Info := EmptyString |}
  = ({| Info := "hello" |}, None).
Proof. reflexivity. Qed.

Example Unmarshal_fold :
  json_Unmarshal (json_text " { 'INFO' : 'a' , 'other' : [1, {}] } ")
                 {| Info := EmptyString |}
  = ({| Info := "a" |}, None).
Proof. reflexivity. Qed.

Example Unmarshal_null :
  json_Unmarshal (json_text "null") {| Info := "kept" |}
  = ({| Info := "kept" |}, None).
Proof. reflexivity. Qed.

Example Unmarshal_number :
  json_Unmarshal (json_text "{'info':3}") {| Info := EmptyString |}
  = ({| Info := EmptyString |}, Some (UnmarshalTypeError "number")).
Proof. reflexivity. Qed.

Example Unmarshal_array :
  json_Unmarshal (json_text "[]") {| Info := EmptyString |}
  = ({| Info := EmptyString |}, Some (UnmarshalTypeError "array")).
Proof. reflexivity. Qed.

Example Unmarshal_syntax :
  json_Unmarshal (json_text "{'info':'a',}") {| Info := EmptyString |}
  = ({| Info := EmptyString |}, Some SyntaxError).
Proof. reflexivity. Qed.

Example Unmarshal_escaped :
  json_Unmarshal (json_text "{'info':'\u00e9\ud83d\ude00\ud83d'}")
                 {| Info := EmptyString |}
  = ({| Info := string_of_list_byte
                  [xc3; xa9; xf0; x9f; x98; x80; xef; xbf; xbd] |}, None).
Proof. reflexivity. Qed.

End examples.

(** ** The config codec *)

Module codec_facts.
Import GoFacts utf8 json json_facts.
Import context digest ocispec content packaging.

(** An object with the single member [info] whose value is a string
    literal. *)
Lemma parse_value_info f body str :
  (forall rest, unquote (body ++ quote :: rest) = Some (str, rest)) ->
  parse_value (S (S (S f))) 0
    (list_byte_of_string "{"
       ++ (quote :: list_byte_of_string "info" ++ [quote])
       ++ list_byte_of_string ":"
       ++ (quote :: body ++ [quote])
       ++ list_byte_of_string "}")
  = Some (json.Object [(field_info, json.String str)], []).
Proof.
  intros Hbody.
  replace ((quote :: body ++ [quote]) ++ list_byte_of_string "}")
    with (quote :: body ++ quote :: list_byte_of_string "}")
    by (simpl; rewrite <- app_assoc; reflexivity).
  simpl. rewrite Hbody. reflexivity.
Qed.

Lemma parse_Marshal cfg :
  json.parse (fst (json_Marshal cfg))
  = Some (json.Object
            [(field_info,
              json.String (coerce (list_byte_of_string (Info cfg))))]).
Proof.
  unfold json_Marshal, json.parse, encode_string. cbn [fst].
  match goal with
  | |- context [parse_value (S (2 * length ?d))] =>
      replace (S (2 * length d)) with (S (S (S (2 * length d - 2))))
        by (simpl; lia)
  end.
  change (string_loop (length field_info) field_info)
    with (list_byte_of_string "info").
  rewrite (parse_value_info _ _ (coerce (list_byte_of_string (Info cfg))))
    by (intros rest; apply unquote_encoded).
  reflexivity.
Qed.

(** Decoding what [json.Marshal] wrote. *)
Lemma Unmarshal_Marshal cfg cfg0 :
  json_Unmarshal (fst (json_Marshal cfg)) cfg0
  = ({| Info := string_of_list_byte
                  (coerce (list_byte_of_string (Info cfg))) |}, None).
Proof.
  unfold json_Unmarshal. rewrite parse_Marshal. reflexivity.
Qed.

End codec_facts.


(** ** The concrete digest and codec *)

Module instances_facts.
Import digest ocispec content spec instances.

Lemma spelled_digest_injective (x y : list byte) :
  @FromBytes spelled_digest x = @FromBytes spelled_digest y -> x = y.
Proof.
  intros Heq. unfold FromBytes, spelled_digest in Heq.
  simpl in Heq. injection Heq as Heq.
  change (string_of_list_byte x = string_of_list_byte y) in Heq.
  apply (f_equal list_byte_of_string) in Heq.
  rewrite !list_byte_of_string_of_list_byte in Heq. exact Heq.
Qed.

Lemma spelled_digest_collision_free blob :
  @collision_free_on spelled_digest blob.
Proof. intros x y _ _. apply spelled_digest_injective. Qed.

Lemma positive_of_bits_of_positive p :
  positive_of_bits (bits_of_positive p) = Some p.
Proof. induction p as [p IH|p IH|]; cbn; rewrite ?IH; reflexivity. Qed.

Lemma bits_codec_reads m : @reads bits_codec m.
Proof.
  unfold reads. cbn. rewrite positive_of_bits_of_positive.
  apply decode_encode.
Qed.

Lemma registry0_ok `{Algorithm} : registry_ok registry0.
Proof. intros d data Hl. cbn in Hl. rewrite lookup_empty in Hl. discriminate. Qed.

End instances_facts.

(** ** The stores and the copy between them *)

Module store_facts.
Import context digest ocispec content oras packaging spec.
Import codec_facts.

Section Stores.
Context `{Algorithm} `{ManifestCodec}.

(** The shape of a result whose error is nil, and of a lookup that
    found its entry. *)
Lemma copy_result {A B} (x : A * (B * option error)) :
  snd (snd x) = None -> x = (fst x, (fst (snd x), None)).
Proof. destruct x as [a [b e]]. cbn. intros ->. reflexivity. Qed.

Lemma lookup_result {A B} (x : A * B * bool) :
  snd x = true -> x = (fst (fst x), snd (fst x), true).
Proof. destruct x as [[a b] ok]. cbn. intros ->. reflexivity. Qed.

Lemma stage_eq ref pkg :
  stage ref (Some pkg)
  = Ret (staged ref (ProgramFileBytes pkg)
                (fst (json_Marshal (embedded pkg))), None).
Proof. reflexivity. Qed.

(** *** The remote registry *)

Lemma Registry_Push ctx r ref desc data :
  transport ctx r = None -> Digest desc = FromBytes data ->
  content.Push ctx r ref desc data = inr (put r ref desc data).
Proof.
  intros Ht Hd. cbn. rewrite Ht, Hd, String.eqb_refl. cbn.
  unfold put. rewrite Hd. reflexivity.
Qed.

Lemma Registry_Push_fault ctx r ref desc data e :
  transport ctx r = Some e -> content.Push ctx r ref desc data = inl e.
Proof. intros Ht. cbn. rewrite Ht. reflexivity. Qed.

Lemma Registry_Fetch ctx r desc x :
  transport ctx r = None -> blobs r !! Digest desc = Some x ->
  Fetch ctx r desc = inr x.
Proof. intros Ht Hx. cbn. rewrite Ht, Hx. reflexivity. Qed.

Lemma put_keeps r ref desc data x :
  blobs r !! FromBytes x = Some x ->
  blobs (put r ref desc data) !! FromBytes x = Some x.
Proof.
  intros Hx. cbn. destruct (blobs r !! Digest desc) eqn:E; [exact Hx|].
  rewrite lookup_insert_ne; [exact Hx|]. congruence.
Qed.

Lemma put_blobs r ref desc data d x :
  blobs (put r ref desc data) !! d = Some x ->
  blobs r !! d = Some x \/ (x = data /\ d = Digest desc).
Proof.
  cbn. destruct (blobs r !! Digest desc) eqn:E; [auto|].
  rewrite lookup_insert. case_decide as Hk; [|auto].
  intros [= <-]. auto.
Qed.

Lemma put_has r ref desc data :
  (forall old, blobs r !! FromBytes data = Some old -> old = data) ->
  Digest desc = FromBytes data ->
  blobs (put r ref desc data) !! FromBytes data = Some data.
Proof.
  intros Hsame Hd. cbn. rewrite Hd.
  destruct (blobs r !! FromBytes data) as [old|] eqn:E.
  - rewrite E. f_equal. apply Hsame. reflexivity.
  - apply lookup_insert_eq.
Qed.

Lemma put_ok r ref desc data :
  registry_ok r -> Digest desc = FromBytes data ->
  registry_ok (put r ref desc data).
Proof.
  intros Hok Hd d x Hl.
  destruct (put_blobs _ _ _ _ _ _ Hl) as [Hr|[-> ->]]; [|congruence].
  apply Hok, Hr.
Qed.

Lemma put_tags_manifest r ref desc data :
  MediaType desc = MediaTypeImageManifest ->
  tags (put r ref desc data) !! ref = Some desc.
Proof. intros Hm. cbn. rewrite Hm. cbn. apply lookup_insert_eq. Qed.

(** *** The memory store *)

Lemma insert_keeps_content (m : gmap string (list byte)) x y :
  (FromBytes y = FromBytes x -> y = x) ->
  m !! FromBytes x = Some x ->
  <[FromBytes y := y]> m !! FromBytes x = Some x.
Proof.
  intros Hsame Hx. rewrite lookup_insert. case_decide as Hk; [|exact Hx].
  f_equal. apply Hsame, Hk.
Qed.

Lemma insert_keeps_described (m : gmap string Descriptor) d desc :
  described m d -> described (<[Digest desc := desc]> m) d.
Proof.
  intros (desc' & Hl & Hd). unfold described.
  rewrite lookup_insert. case_decide as Hk; eauto.
Qed.

Lemma insert_described (m : gmap string Descriptor) desc :
  described (<[Digest desc := desc]> m) (Digest desc).
Proof. exists desc. split; [apply lookup_insert_eq|reflexivity]. Qed.

Lemma Memory_Fetch ctx (s : Memory) desc x :
  described (descriptor s) (Digest desc) ->
  content s !! Digest desc = Some x ->
  Fetch ctx s desc = inr x.
Proof.
  intros (desc' & Hl & Hd) Hc. cbn. unfold Get.
  rewrite Hl, Hd, Hc. reflexivity.
Qed.

Lemma Memory_Push ctx (s : Memory) ref desc data :
  content.Push ctx s ref desc data = inr (received s ref desc data).
Proof. unfold received. cbn. destruct (split_hash ref). reflexivity. Qed.

Lemma Set_nameMap s desc data :
  nameMap (Set_ s desc data)
  = if snd (ResolveName desc)
       && negb (String.eqb (fst (ResolveName desc)) EmptyString)
    then <[fst (ResolveName desc) := desc]> (nameMap s)
    else nameMap s.
Proof. unfold Set_. destruct (ResolveName desc). reflexivity. Qed.

Lemma received_nameMap s ref desc data :
  nameMap (received s ref desc data) = nameMap (Set_ s desc data).
Proof.
  unfold received. cbn. destruct (split_hash ref) as [tag hash].
  destruct (String.eqb (Digest desc) hash); unfold Set_;
    destruct (ResolveName desc); reflexivity.
Qed.

Lemma received_content s ref desc data :
  content (received s ref desc data)
  = <[Digest desc := data]> (content s).
Proof.
  unfold received. cbn. destruct (split_hash ref) as [tag hash].
  destruct (String.eqb (Digest desc) hash); unfold Set_;
    destruct (ResolveName desc); reflexivity.
Qed.

Lemma GetByName_found (m : Memory) name desc x :
  nameMap m !! name = Some desc -> content m !! Digest desc = Some x ->
  GetByName m name = (desc, x, true).
Proof. intros Hn Hc. unfold GetByName. rewrite Hn, Hc. reflexivity. Qed.

Lemma GetByName_missing (m : Memory) name :
  nameMap m !! name = None -> snd (GetByName m name) = false.
Proof. intros Hn. unfold GetByName. rewrite Hn. reflexivity. Qed.

Lemma ResolveName_prog B :
  ResolveName (progDesc_of B) = (ebpfFileName, true).
Proof.
  unfold ResolveName, map_index. cbn [progDesc_of Annotations].
  rewrite lookup_singleton_eq. reflexivity.
Qed.

Lemma ResolveName_config C :
  ResolveName (configDesc_of C) = (configName, true).
Proof.
  unfold ResolveName, map_index. cbn [configDesc_of Annotations].
  rewrite lookup_insert_eq. reflexivity.
Qed.

Lemma ResolveName_manifest M :
  ResolveName (manifestDesc_of M) = (EmptyString, false).
Proof. reflexivity. Qed.

Lemma received_names ref B C M :
  nameMap (received
             (received (received NewMemory ref (configDesc_of C) C)
                       ref (progDesc_of B) B)
             ref (manifestDesc_of M) M)
  = <[ebpfFileName := progDesc_of B]>
      (<[configName := configDesc_of C]> ∅).
Proof.
  rewrite received_nameMap, Set_nameMap, ResolveName_manifest.
  cbn [snd andb].
  rewrite received_nameMap, Set_nameMap, ResolveName_prog.
  rewrite received_nameMap, Set_nameMap, ResolveName_config.
  reflexivity.
Qed.

(** *** The stage of a package *)

Lemma written_program B C : B ∈ written B C.
Proof. apply list_elem_of_here. Qed.

Lemma written_config B C : C ∈ written B C.
Proof. apply list_elem_of_further, list_elem_of_here. Qed.

Lemma written_manifest B C : Marshal (manifest_of B C) ∈ written B C.
Proof. do 2 apply list_elem_of_further. apply list_elem_of_here. Qed.

Section Staged.
Variables (ref : string) (B C : list byte).
Let M := Marshal (manifest_of B C).
Hypothesis Hcf : distinct_digests B C.

Lemma written_same x y :
  x ∈ written B C -> y ∈ written B C ->
  FromBytes x = FromBytes y -> x = y.
Proof. apply Hcf. Qed.

Lemma staged_content x :
  x ∈ written B C -> content (staged ref B C) !! FromBytes x = Some x.
Proof.
  intros Hx. cbn. fold M.
  pose proof (written_program B C) as HB.
  pose proof (written_config B C) as HC.
  pose proof (written_manifest B C) as HM. fold M in HM.
  unfold written in Hx. fold M in Hx.
  apply list_elem_of_In in Hx.
  destruct Hx as [<-|[<-|[<-|[]]]].
  - do 2 (apply insert_keeps_content;
          [intros; apply written_same; assumption|]).
    apply lookup_insert_eq.
  - apply insert_keeps_content;
      [intros; apply written_same; assumption|].
    apply lookup_insert_eq.
  - apply lookup_insert_eq.
Qed.

Lemma staged_described x :
  x ∈ written B C ->
  described (descriptor (staged ref B C)) (FromBytes x).
Proof.
  intros Hx. cbn. fold M.
  change (FromBytes M) with (Digest (manifestDesc_of M)).
  change (FromBytes C) with (Digest (configDesc_of C)).
  change (FromBytes B) with (Digest (progDesc_of B)).
  unfold written in Hx. fold M in Hx.
  apply list_elem_of_In in Hx.
  destruct Hx as [<-|[<-|[<-|[]]]].
  - change (FromBytes B) with (Digest (progDesc_of B)).
    do 2 apply insert_keeps_described. apply insert_described.
  - change (FromBytes C) with (Digest (configDesc_of C)).
    apply insert_keeps_described. apply insert_described.
  - change (FromBytes M) with (Digest (manifestDesc_of M)).
    apply insert_described.
Qed.

Lemma staged_Fetch ctx desc x :
  x ∈ written B C -> Digest desc = FromBytes x ->
  Fetch ctx (staged ref B C) desc = inr x.
Proof.
  intros Hx Hd. apply Memory_Fetch; rewrite Hd.
  - apply staged_described, Hx.
  - apply staged_content, Hx.
Qed.

Lemma staged_program :
  GetByName (staged ref B C) ebpfFileName = (progDesc_of B, B, true).
Proof.
  apply GetByName_found.
  - cbn. rewrite lookup_insert_ne by done. apply lookup_insert_eq.
  - apply staged_content, written_program.
Qed.

Lemma staged_config :
  GetByName (staged ref B C) configName = (configDesc_of C, C, true).
Proof.
  apply GetByName_found.
  - apply lookup_insert_eq.
  - apply staged_content, written_config.
Qed.
End Staged.

Lemma staged_Fetch_manifest ctx ref B C :
  Fetch ctx (staged ref B C)
        (manifestDesc_of (Marshal (manifest_of B C)))
  = inr (Marshal (manifest_of B C)).
Proof.
  apply Memory_Fetch; cbn.
  - exists (manifestDesc_of (Marshal (manifest_of B C))).
    split; [apply lookup_insert_eq|reflexivity].
  - apply lookup_insert_eq.
Qed.

Lemma children_manifest B C :
  reads (manifest_of B C) ->
  children (manifestDesc_of (Marshal (manifest_of B C)))
           (Marshal (manifest_of B C))
  = inr [configDesc_of C; progDesc_of B].
Proof. intros Hrt. unfold children. cbn. rewrite Hrt. reflexivity. Qed.

(** *** [Push] and the [Pull] that follows *)

Section Pushed.
Variables (ref : string) (r : Registry) (B C : list byte).
Let M := Marshal (manifest_of B C).
Hypothesis Hcf : distinct_digests_in r B C.
Hypothesis Hrt : reads (manifest_of B C).
Hypothesis Hok : registry_ok r.

Lemma distinct_written : distinct_digests B C.
Proof. intros x y Hx Hy. apply Hcf; left; assumption. Qed.

Lemma pushed_has x :
  x ∈ written B C ->
  blobs (pushed r ref B C) !! FromBytes x = Some x.
Proof.
  intros Hx. unfold pushed. fold M.
  set (r1 := put r ref (configDesc_of C) C).
  set (r2 := put r1 ref (progDesc_of B) B).
  pose proof (written_program B C) as HB.
  pose proof (written_config B C) as HC.
  pose proof (written_manifest B C) as HM. fold M in HM.
  assert (Hok1 : registry_ok r1) by (apply put_ok; auto).
  assert (Hok2 : registry_ok r2) by (apply put_ok; auto).
  assert (Hin0 : forall d y, blobs r !! d = Some y ->
             y ∈ written B C \/ exists d', blobs r !! d' = Some y)
    by eauto.
  assert (Hin1 : forall d y, blobs r1 !! d = Some y ->
             y ∈ written B C \/ exists d', blobs r !! d' = Some y).
  { intros d y Hl. unfold r1 in Hl.
    destruct (put_blobs _ _ _ _ _ _ Hl) as [?|[-> _]]; eauto. }
  assert (Hin2 : forall d y, blobs r2 !! d = Some y ->
             y ∈ written B C \/ exists d', blobs r !! d' = Some y).
  { intros d y Hl. unfold r2 in Hl.
    destruct (put_blobs _ _ _ _ _ _ Hl) as [?|[-> _]]; eauto. }
  assert (H1 : blobs r1 !! FromBytes C = Some C).
  { unfold r1. apply put_has; [|reflexivity]. intros old Hl.
    apply Hcf; [right; eauto|left; exact HC|apply Hok, Hl]. }
  assert (H2 : blobs r2 !! FromBytes B = Some B).
  { unfold r2. apply put_has; [|reflexivity]. intros old Hl.
    apply Hcf; [apply (Hin1 _ _ Hl)|left; exact HB|apply Hok1, Hl]. }
  assert (H3 : blobs (put r2 ref (manifestDesc_of M) M) !! FromBytes M
               = Some M).
  { apply put_has; [|reflexivity]. intros old Hl.
    apply Hcf; [apply (Hin2 _ _ Hl)|left; exact HM|apply Hok2, Hl]. }
  unfold written in Hx. fold M in Hx. apply list_elem_of_In in Hx.
  destruct Hx as [<-|[<-|[<-|[]]]].
  - apply put_keeps, H2.
  - do 2 apply put_keeps. exact H1.
  - exact H3.
Qed.

Lemma Copy_staged ctx :
  transport ctx r = None ->
  oras.Copy ctx (staged ref B C) ref r EmptyString
  = (pushed r ref B C, (manifestDesc_of M, None)).
Proof.
  intros Ht. unfold oras.Copy.
  pose proof (written_program B C) as HB.
  pose proof (written_config B C) as HC.
  change (Resolve ctx (staged ref B C) ref)
    with (match refMap (staged ref B C) !! ref with
          | Some desc => @inr error _ desc
          | None =>
              inl (errors_New
                     (String.append "unknown reference: " ref))
          end).
  cbn [staged refMap]. rewrite lookup_insert_eq.
  rewrite staged_Fetch_manifest.
  rewrite children_manifest by exact Hrt.
  cbn [transfer String.eqb].
  rewrite (staged_Fetch ref B C distinct_written ctx _ C)
    by (exact HC || reflexivity).
  rewrite Registry_Push by (exact Ht || reflexivity).
  rewrite (staged_Fetch ref B C distinct_written ctx _ B)
    by (exact HB || reflexivity).
  rewrite Registry_Push by (exact Ht || reflexivity).
  rewrite Registry_Push by (exact Ht || reflexivity).
  reflexivity.
Qed.

Lemma Copy_pushed ctx :
  transport ctx r = None ->
  exists m,
    oras.Copy ctx (pushed r ref B C) ref NewMemory EmptyString
    = (m, (manifestDesc_of M, None))
    /\ GetByName m ebpfFileName = (progDesc_of B, B, true)
    /\ GetByName m configName = (configDesc_of C, C, true).
Proof.
  intros Ht.
  pose proof (written_program B C) as HB.
  pose proof (written_config B C) as HC.
  pose proof (written_manifest B C) as HM. fold M in HM.
  pose proof distinct_written as Hw.
  set (m1 := received NewMemory ref (configDesc_of C) C).
  set (m2 := received m1 ref (progDesc_of B) B).
  exists (received m2 ref (manifestDesc_of M) M).
  assert (Ht' : transport ctx (pushed r ref B C) = None) by exact Ht.
  split; [|split].
  - unfold oras.Copy.
    change (Resolve ctx (pushed r ref B C) ref)
      with (match transport ctx (pushed r ref B C) with
            | Some e => inl e
            | None =>
                match tags (pushed r ref B C) !! ref with
                | Some desc => @inr error _ desc
                | None => inl (RegistryError "not found")
                end
            end).
    rewrite Ht'. unfold pushed at 1.
    rewrite put_tags_manifest by reflexivity. fold M.
    rewrite (Registry_Fetch ctx _ (manifestDesc_of M) M)
      by (try exact Ht'; apply pushed_has; exact HM).
    unfold M at 1 2. rewrite children_manifest by exact Hrt.
    cbn [transfer String.eqb].
    rewrite (Registry_Fetch ctx _ (configDesc_of C) C)
      by (try exact Ht'; apply pushed_has; exact HC).
    rewrite Memory_Push. fold m1.
    rewrite (Registry_Fetch ctx _ (progDesc_of B) B)
      by (try exact Ht'; apply pushed_has; exact HB).
    rewrite Memory_Push. fold m2.
    rewrite Memory_Push. reflexivity.
  - apply GetByName_found.
    + unfold m2, m1. rewrite received_names. apply lookup_insert_eq.
    + rewrite received_content. unfold m2.
      rewrite received_content.
      cbn [progDesc_of Digest manifestDesc_of].
      apply insert_keeps_content; [intros; apply Hw; assumption|].
      apply lookup_insert_eq.
  - apply GetByName_found.
    + unfold m2, m1. rewrite received_names.
      rewrite lookup_insert_ne by done. apply lookup_insert_eq.
    + rewrite received_content. unfold m2.
      rewrite received_content. unfold m1. rewrite received_content.
      cbn [progDesc_of configDesc_of Digest manifestDesc_of].
      do 2 (apply insert_keeps_content;
            [intros; apply Hw; assumption|]).
      apply lookup_insert_eq.
Qed.
End Pushed.

Lemma Push_eq ctx ref pkg r :
  let B := ProgramFileBytes pkg in
  let C := fst (json_Marshal (embedded pkg)) in
  distinct_digests_in r B C -> reads (manifest_of B C) ->
  registry_ok r -> transport ctx r = None ->
  packaging.Push ctx ref (Some pkg) r = Ret (None, pushed r ref B C).
Proof.
  intros B C Hcf Hrt Hok Ht. unfold packaging.Push. rewrite stage_eq.
  cbn [mbind outcome_bind bind]. fold B C.
  rewrite Copy_staged by assumption. reflexivity.
Qed.

(** A push that reports no error went through to the registry. *)
Lemma Push_transport ctx ref pkg r r' :
  packaging.Push ctx ref (Some pkg) r = Ret (None, r') ->
  transport ctx r = None.
Proof.
  intros HP. destruct (transport ctx r) as [e|] eqn:Ht; [|reflexivity].
  exfalso. unfold packaging.Push in HP. rewrite stage_eq in HP.
  cbn [mbind outcome_bind bind] in HP. unfold oras.Copy in HP.
  set (B := ProgramFileBytes pkg) in *.
  set (C := fst (json_Marshal (embedded pkg))) in *.
  change (Resolve ctx (staged ref B C) ref)
    with (match refMap (staged ref B C) !! ref with
          | Some desc => @inr error _ desc
          | None =>
              inl (errors_New (String.append "unknown reference: " ref))
          end) in HP.
  cbn [staged refMap] in HP. rewrite lookup_insert_eq in HP.
  rewrite staged_Fetch_manifest in HP.
  destruct (children _ _) as [e'|descs] eqn:Hch; [discriminate|].
  unfold children in Hch. cbn in Hch.
  destruct (Unmarshal _) as [m|]; [|discriminate].
  injection Hch as <-. cbn [transfer] in HP.
  destruct (Fetch ctx _ (Config m)) as [e'|data]; [discriminate|].
  rewrite (Registry_Push_fault _ _ _ _ _ e) in HP by exact Ht.
  discriminate.
Qed.

(** What [Pull] returns for an artifact that [Push] wrote. *)
Lemma Pull_pushed ctx ref B cfg r :
  let C := fst (json_Marshal cfg) in
  distinct_digests_in r B C -> reads (manifest_of B C) ->
  registry_ok r -> transport ctx r = None ->
  Pull ctx ref (pushed r ref B C)
  = Ret (Some {| ProgramFileBytes := B;
                 embedded :=
                   {| Info := string_of_list_byte
                                (json.coerce
                                   (list_byte_of_string (Info cfg))) |} |},
         None).
Proof.
  intros C Hcf Hrt Hok Ht.
  destruct (Copy_pushed ref r B C Hcf Hrt Hok ctx Ht)
    as (m & HC & HB & HCfg).
  unfold Pull. rewrite HC, HB. cbn [negb]. rewrite HCfg. cbn [negb].
  unfold C. rewrite Unmarshal_Marshal. reflexivity.
Qed.

(** [Pull] after a copy that succeeded. *)
Lemma Pull_copied ctx ref r m root :
  oras.Copy ctx r ref NewMemory EmptyString = (m, (root, None)) ->
  Pull ctx ref r =
    if negb (snd (GetByName m ebpfFileName)) then
      Ret (None, Some (errors_New "could not find ebpf bytes in manifest"))
    else if negb (snd (GetByName m configName)) then
      Ret (None, Some (errors_New "could not find ebpf bytes in manifest"))
    else
      match snd (json_Unmarshal (snd (fst (GetByName m configName)))
                                {| Info := EmptyString |}) with
      | Some err => Ret (None, Some err)
      | None =>
          Ret (Some {| ProgramFileBytes :=
                         snd (fst (GetByName m ebpfFileName));
                       embedded :=
                         fst (json_Unmarshal
                                (snd (fst (GetByName m configName)))
                                {| Info := EmptyString |}) |}, None)
      end.
Proof.
  intros HC. unfold Pull. rewrite HC.
  destruct (GetByName m ebpfFileName) as [[d1 b1] ok1].
  destruct (GetByName m configName) as [[d2 b2] ok2].
  cbn [fst snd]. destruct ok1, ok2; cbn [negb]; try reflexivity.
  destruct (json_Unmarshal b2 _) as [cfg [e|]]; reflexivity.
Qed.
End Stores.
End store_facts.

(** ** What a copy out of the registry depends on *)

Module copy_facts.
Import context digest ocispec content oras packaging spec store_facts.

Section Copies.
Context `{Algorithm} `{ManifestCodec}.

(** *** Names in the store after a copy *)

Lemma Set_keeps_unnamed s desc data name :
  ~ titled name desc -> nameMap s !! name = None ->
  nameMap (Set_ s desc data) !! name = None.
Proof.
  intros Hnt Hn. rewrite Set_nameMap. unfold titled in Hnt.
  destruct (ResolveName desc) as [name' ok]. cbn [fst snd].
  destruct ok; cbn [andb]; [|exact Hn].
  destruct (negb _); [|exact Hn].
  rewrite lookup_insert_ne; [exact Hn|]. congruence.
Qed.

Lemma transfer_keeps_unnamed ctx (r : Registry) ref name descs :
  forall (to to' : Memory),
  Forall (fun d => ~ titled name d) descs ->
  nameMap to !! name = None ->
  transfer ctx r to ref descs = (to', None) ->
  nameMap to' !! name = None.
Proof.
  induction descs as [|d descs IH]; intros to to' Hall Hn HT.
  - cbn in HT. congruence.
  - cbn [transfer] in HT. inversion Hall as [|? ? Hd Hrest]; subst.
    destruct (Fetch ctx r d) as [e|data]; [discriminate|].
    rewrite Memory_Push in HT.
    apply (IH _ _ Hrest) in HT; [exact HT|].
    rewrite received_nameMap. apply Set_keeps_unnamed; assumption.
Qed.

Lemma Copy_keeps_unnamed ctx r ref m root name :
  oras.Copy ctx r ref NewMemory EmptyString = (m, (root, None)) ->
  Forall (fun d => ~ titled name d) (copied ctx r ref) ->
  nameMap m !! name = None.
Proof.
  unfold oras.Copy, copied. intros HC Hall.
  destruct (Resolve ctx r ref) as [e|root']; [discriminate|].
  destruct (Fetch ctx r root') as [e|data]; [discriminate|].
  destruct (children root' data) as [e|descs]; [discriminate|].
  apply Forall_app in Hall as [Hdescs Hroot].
  destruct (transfer _ _ _ _ _) as [to1 [e|]] eqn:HT; [discriminate|].
  rewrite Memory_Push in HC. injection HC as <- _.
  rewrite received_nameMap. apply Set_keeps_unnamed.
  - inversion Hroot; assumption.
  - eapply transfer_keeps_unnamed; [exact Hdescs| |exact HT]. reflexivity.
Qed.

(** *** A copy out of the registry depends on the artifact only *)

Lemma transfer_agree ctx1 ctx2 (r1 r2 : Registry) ref descs :
  forall to : Memory,
  transport ctx1 r1 = None -> transport ctx2 r2 = None ->
  Forall (fun d => blobs r1 !! Digest d = blobs r2 !! Digest d) descs ->
  transfer ctx1 r1 to ref descs = transfer ctx2 r2 to ref descs.
Proof.
  intros to Ht1 Ht2 Hall. revert to.
  induction Hall as [|d descs Hd Hrest IH]; intros to; [reflexivity|].
  cbn [transfer].
  change (Fetch ctx1 r1 d)
    with (match transport ctx1 r1 with
          | Some e => inl e
          | None => match blobs r1 !! Digest d with
                    | Some data => @inr error _ data
                    | None => inl (RegistryError "not found")
                    end
          end).
  change (Fetch ctx2 r2 d)
    with (match transport ctx2 r2 with
          | Some e => inl e
          | None => match blobs r2 !! Digest d with
                    | Some data => @inr error _ data
                    | None => inl (RegistryError "not found")
                    end
          end).
  rewrite Ht1, Ht2, Hd.
  destruct (blobs r2 !! Digest d); [|reflexivity].
  rewrite !Memory_Push. apply IH.
Qed.

Lemma map_blobs_agree (r1 r2 : Registry) (descs : list Descriptor) :
  (fun d => (d, blobs r1 !! Digest d)) <$> descs
  = (fun d => (d, blobs r2 !! Digest d)) <$> descs ->
  Forall (fun d => blobs r1 !! Digest d = blobs r2 !! Digest d) descs.
Proof.
  induction descs as [|d descs IH]; intros Heq; constructor.
  - cbn in Heq. congruence.
  - apply IH. cbn in Heq. congruence.
Qed.

Lemma Copy_agree ctx1 ctx2 r1 r2 ref :
  transport ctx1 r1 = transport ctx2 r2 ->
  artifact_at r1 ref = artifact_at r2 ref ->
  oras.Copy ctx1 r1 ref NewMemory EmptyString = oras.Copy ctx2 r2 ref NewMemory EmptyString.
Proof.
  intros Ht Ha. unfold oras.Copy.
  change (Resolve ctx1 r1 ref)
    with (match transport ctx1 r1 with
          | Some e => inl e
          | None => match tags r1 !! ref with
                    | Some desc => @inr error _ desc
                    | None => inl (RegistryError "not found")
                    end
          end).
  change (Resolve ctx2 r2 ref)
    with (match transport ctx2 r2 with
          | Some e => inl e
          | None => match tags r2 !! ref with
                    | Some desc => @inr error _ desc
                    | None => inl (RegistryError "not found")
                    end
          end).
  rewrite Ht. destruct (transport ctx2 r2) as [e|] eqn:Ht2;
    [reflexivity|].
  unfold artifact_at in Ha.
  destruct (tags r1 !! ref) as [root|], (tags r2 !! ref) as [root2|];
    try discriminate; [|reflexivity].
  injection Ha as <- Hroot Hch.
  change (Fetch ctx1 r1 root)
    with (match transport ctx1 r1 with
          | Some e => inl e
          | None => match blobs r1 !! Digest root with
                    | Some data => @inr error _ data
                    | None => inl (RegistryError "not found")
                    end
          end).
  change (Fetch ctx2 r2 root)
    with (match transport ctx2 r2 with
          | Some e => inl e
          | None => match blobs r2 !! Digest root with
                    | Some data => @inr error _ data
                    | None => inl (RegistryError "not found")
                    end
          end).
  rewrite Ht, Ht2. rewrite Hroot in *.
  destruct (blobs r2 !! Digest root) as [data|]; [|reflexivity].
  destruct (children root data) as [e|descs]; [reflexivity|].
  rewrite (transfer_agree ctx1 ctx2 r1 r2) by
    (try assumption; try (rewrite Ht; assumption);
     apply map_blobs_agree; assumption).
  destruct (transfer ctx2 r2 _ _ _) as [to1 [e|]]; [reflexivity|].
  rewrite !Memory_Push. reflexivity.
Qed.

Lemma Pull_agree ctx1 ctx2 r1 r2 ref :
  transport ctx1 r1 = transport ctx2 r2 ->
  artifact_at r1 ref = artifact_at r2 ref ->
  Pull ctx1 ref r1 = Pull ctx2 ref r2.
Proof.
  intros Ht Ha. unfold Pull. rewrite (Copy_agree _ _ _ _ _ Ht Ha).
  reflexivity.
Qed.

(** A pull that returns a package went through to the registry. *)
Lemma Pull_transport ctx ref r pkg :
  Pull ctx ref r = Ret (Some pkg, None) -> transport ctx r = None.
Proof.
  intros HP. destruct (transport ctx r) as [e|] eqn:Ht; [|reflexivity].
  unfold Pull, oras.Copy in HP.
  change (Resolve ctx r ref)
    with (match transport ctx r with
          | Some e => inl e
          | None => match tags r !! ref with
                    | Some desc => @inr error _ desc
                    | None => inl (RegistryError "not found")
                    end
          end) in HP.
  rewrite Ht in HP. discriminate.
Qed.
End Copies.
End copy_facts.

(** * The packaging contract *)

Module contract.
Import context digest ocispec content oras packaging spec instances.
Import codec_facts store_facts copy_facts instances_facts.

Section Contract.
Context `{Algorithm} `{ManifestCodec}.

(** C1 (as amended).  A package whose [Info] is well-formed UTF-8,
    pushed to [ref] and pulled from [ref] again, comes back with the
    same program bytes and the same [Info].  Assumed of the
    dependencies: the digest has no collision among the blobs written
    and those the registry holds, the manifest codec reads the
    manifest it wrote, and the registry is content-addressed. *)
Theorem push_pull_roundtrip (ctx ctx' : Context) (ref : string)
    (B : list byte) (info : string) (r r' : Registry) :
  let C := fst (json_Marshal {| Info := info |}) in
  distinct_digests_in r B C -> reads (manifest_of B C) ->
  registry_ok r ->
  utf8.Valid (list_byte_of_string info) = true ->
  Push ctx ref
       (Some {| ProgramFileBytes := B; embedded := {| Info := info |} |}) r
  = Ret (None, r') ->
  Err ctx' = None ->
  exists pkg,
    Pull ctx' ref r' = Ret (Some pkg, None)
    /\ ProgramFileBytes pkg = B
    /\ Info (embedded pkg) = info.
Proof.
  intros C Hcf Hrt Hok Hv HP Hctx.
  pose proof (Push_transport _ _ _ _ _ HP) as Ht.
  assert (Ht' : transport ctx' r = None).
  { unfold transport in *. rewrite Hctx.
    destruct (Err ctx); [discriminate|exact Ht]. }
  assert (Hr' : r' = pushed r ref B C).
  { rewrite Push_eq in HP by assumption.
    cbn [ProgramFileBytes embedded] in HP. fold C in HP. congruence. }
  subst r'. unfold C. rewrite Pull_pushed by assumption.
  eexists. split; [reflexivity|]. cbn [ProgramFileBytes embedded Info].
  split; [reflexivity|].
  rewrite json_facts.coerce_valid by exact Hv.
  apply string_of_list_byte_of_string.
Qed.

(** C4.  A push that succeeds has staged the program bytes under the
    name [program.o] with media type [binary/ebpf.solo.io.v1], and
    the encoded config under the name [config.json] with media type
    [application/ebpf.oci.image.config.v1+json]; the name of the
    config is the title annotation of its descriptor.  The digest is
    assumed to tell the three staged blobs apart. *)
Theorem push_stages_entries (ctx : Context) (ref : string)
    (pkg : EbpfPackage) (r r' : Registry) :
  distinct_digests (ProgramFileBytes pkg)
                   (fst (json_Marshal (embedded pkg))) ->
  Push ctx ref (Some pkg) r = Ret (None, r') ->
  exists m progDesc configDesc,
    stage ref (Some pkg) = Ret (m, None)
    /\ GetByName m "program.o" = (progDesc, ProgramFileBytes pkg, true)
    /\ MediaType progDesc = "binary/ebpf.solo.io.v1"
    /\ GetByName m "config.json"
       = (configDesc, fst (json_Marshal (embedded pkg)), true)
    /\ MediaType configDesc = "application/ebpf.oci.image.config.v1+json"
    /\ Annotations configDesc
       = Some {[ "org.opencontainers.image.title" := "config.json" ]}.
Proof.
  intros Hcf _.
  exists (staged ref (ProgramFileBytes pkg)
                 (fst (json_Marshal (embedded pkg)))),
    (progDesc_of (ProgramFileBytes pkg)),
    (configDesc_of (fst (json_Marshal (embedded pkg)))).
  split; [apply stage_eq|].
  split; [apply staged_program, Hcf|].
  split; [reflexivity|].
  split; [apply staged_config, Hcf|].
  split; reflexivity.
Qed.

(** C5 (as amended).  For a config whose [Info] is well-formed UTF-8,
    [Push] writes the JSON object with the single member [info] and
    the value [Info]; the descriptor staged under [config.json] has
    the digest of exactly those bytes, and their length as size. *)
Theorem config_serialization (ref : string) (pkg : EbpfPackage) :
  utf8.Valid (list_byte_of_string (Info (embedded pkg))) = true ->
  exists m configDesc,
    let configByt := fst (json_Marshal (embedded pkg)) in
    stage ref (Some pkg) = Ret (m, None)
    /\ nameMap m !! configName = Some configDesc
    /\ json.parse configByt
       = Some (json.Object
                 [(list_byte_of_string "info",
                   json.String
                     (list_byte_of_string (Info (embedded pkg))))])
    /\ Digest configDesc = FromBytes configByt
    /\ Size configDesc = Z.of_nat (length configByt).
Proof.
  intros Hv.
  exists (staged ref (ProgramFileBytes pkg)
                 (fst (json_Marshal (embedded pkg)))),
    (configDesc_of (fst (json_Marshal (embedded pkg)))).
  cbv zeta. split; [apply stage_eq|].
  split; [apply lookup_insert_eq|].
  split; [|split; reflexivity].
  rewrite parse_Marshal, json_facts.coerce_valid by exact Hv.
  reflexivity.
Qed.

(** C6.  For a package with no program bytes, [Push] stages without
    fail and returns whatever error the copy returns, nil when the
    registry answers; and after a push that returned nil, [Pull] of
    the same [ref] returns a package, not an error, whose program is
    the empty slice. *)
Theorem empty_program_roundtrip (ctx ctx' : Context) (ref : string)
    (cfg : EbpfConfig) (r : Registry) :
  let pkg := {| ProgramFileBytes := []; embedded := cfg |} in
  let C := fst (json_Marshal cfg) in
  distinct_digests_in r [] C -> reads (manifest_of [] C) ->
  registry_ok r -> Err ctx' = None ->
  (exists m,
     stage ref (Some pkg) = Ret (m, None)
     /\ Push ctx ref (Some pkg) r
        = Ret (snd (snd (oras.Copy ctx m ref r EmptyString)),
               fst (oras.Copy ctx m ref r EmptyString)))
  /\ (transport ctx r = None ->
      exists r', Push ctx ref (Some pkg) r = Ret (None, r'))
  /\ (forall r',
        Push ctx ref (Some pkg) r = Ret (None, r') ->
        exists p,
          Pull ctx' ref r' = Ret (Some p, None)
          /\ ProgramFileBytes p = []).
Proof.
  intros pkg C Hcf Hrt Hok Hctx. split; [|split].
  - eexists. split; [apply stage_eq|].
    unfold Push. rewrite stage_eq. cbn [mbind outcome_bind bind].
    destruct (oras.Copy _ _ _ _ _) as [r' [d err]]. reflexivity.
  - intros Ht. eexists. apply Push_eq; assumption.
  - intros r' HP.
    pose proof (Push_transport _ _ _ _ _ HP) as Ht.
    assert (Ht' : transport ctx' r = None).
    { unfold transport in *. rewrite Hctx.
      destruct (Err ctx); [discriminate|exact Ht]. }
    assert (Hr' : r' = pushed r ref [] C).
    { rewrite Push_eq in HP by assumption.
      cbn [ProgramFileBytes embedded pkg] in HP. fold C in HP.
      congruence. }
    subst r'. unfold C. rewrite Pull_pushed by assumption.
    eexists. split; reflexivity.
Qed.

(** C2.  When the artifact copied from [ref] has no entry named
    [program.o], or none named [config.json], [Pull] returns no package
    and the lookup error: it neither panics nor returns a package
    without an error. *)
Theorem pull_missing_entry (ctx : Context) (ref : string) (r : Registry)
    (m : Memory) (root : Descriptor) :
  oras.Copy ctx r ref NewMemory EmptyString = (m, (root, None)) ->
  Forall (fun d => ~ titled "program.o" d) (copied ctx r ref)
  \/ Forall (fun d => ~ titled "config.json" d) (copied ctx r ref) ->
  Pull ctx ref r
  = Ret (None, Some (errors_New "could not find ebpf bytes in manifest")).
Proof.
  intros HC Hmiss. rewrite (Pull_copied _ _ _ _ _ HC).
  destruct Hmiss as [Hp|Hc].
  - rewrite (GetByName_missing m ebpfFileName); [reflexivity|].
    exact (Copy_keeps_unnamed _ _ _ _ _ _ HC Hp).
  - rewrite (GetByName_missing m configName);
      [|exact (Copy_keeps_unnamed _ _ _ _ _ _ HC Hc)].
    destruct (negb _); reflexivity.
Qed.

(** C3.  When the entry [config.json] of the copied artifact holds
    bytes that [json.Unmarshal] rejects for [EbpfConfig], [Pull]
    returns that decode error and no package; bytes that are not a
    JSON document are rejected with the syntax error. *)
Theorem pull_malformed_config (ctx : Context) (ref : string)
    (r : Registry) (m : Memory) (root progDesc configDesc : Descriptor)
    (ebpfBytes configBytes : list byte) :
  oras.Copy ctx r ref NewMemory EmptyString = (m, (root, None)) ->
  GetByName m ebpfFileName = (progDesc, ebpfBytes, true) ->
  GetByName m configName = (configDesc, configBytes, true) ->
  (forall cfg e,
     json_Unmarshal configBytes {| Info := EmptyString |} = (cfg, Some e) ->
     Pull ctx ref r = Ret (None, Some e))
  /\ (json.parse configBytes = None ->
      Pull ctx ref r = Ret (None, Some SyntaxError)).
Proof.
  intros HC HB HCfg. rewrite (Pull_copied _ _ _ _ _ HC).
  rewrite HB, HCfg. cbn [fst snd negb]. split.
  - intros cfg e HU. rewrite HU. reflexivity.
  - intros HP. unfold json_Unmarshal. rewrite HP. reflexivity.
Qed.

(** C7.  [Pull] keeps no state, and its result is a function of the
    registry content at [ref]: two pulls from registries that hold
    the same artifact at [ref] return the same result when both
    requests get through or fail alike, and whenever both return a
    package the packages are equal. *)
Theorem pull_deterministic (ctx1 ctx2 : Context) (ref : string)
    (r1 r2 : Registry) :
  artifact_at r1 ref = artifact_at r2 ref ->
  (transport ctx1 r1 = transport ctx2 r2 ->
   Pull ctx1 ref r1 = Pull ctx2 ref r2)
  /\ (forall p1 p2 : EbpfPackage,
        Pull ctx1 ref r1 = Ret (Some p1, None) ->
        Pull ctx2 ref r2 = Ret (Some p2, None) ->
        p1 = p2).
Proof.
  intros Ha. split.
  - intros Ht. exact (Pull_agree _ _ _ _ _ Ht Ha).
  - intros p1 p2 H1 H2.
    assert (Ht : transport ctx1 r1 = transport ctx2 r2).
    { rewrite (Pull_transport _ _ _ _ H1), (Pull_transport _ _ _ _ H2).
      reflexivity. }
    rewrite (Pull_agree _ _ _ _ _ Ht Ha) in H1. congruence.
Qed.

(** C8.  A pull that fails for want of [config.json] returns an error
    with the very text of the error returned for want of [program.o]:
    the text does not tell which entry was missing. *)
Theorem missing_entry_same_message (ctx1 ctx2 : Context)
    (ref1 ref2 : string) (r1 r2 : Registry) (m1 m2 : Memory)
    (root1 root2 : Descriptor) :
  oras.Copy ctx1 r1 ref1 NewMemory EmptyString = (m1, (root1, None)) ->
  snd (GetByName m1 ebpfFileName) = false ->
  oras.Copy ctx2 r2 ref2 NewMemory EmptyString = (m2, (root2, None)) ->
  snd (GetByName m2 ebpfFileName) = true ->
  snd (GetByName m2 configName) = false ->
  exists text,
    Pull ctx1 ref1 r1 = Ret (None, Some (errors_New text))
    /\ Pull ctx2 ref2 r2 = Ret (None, Some (errors_New text))
    /\ text = "could not find ebpf bytes in manifest".
Proof.
  intros HC1 Hp1 HC2 Hp2 Hc2.
  exists "could not find ebpf bytes in manifest".
  rewrite (Pull_copied _ _ _ _ _ HC1), (Pull_copied _ _ _ _ _ HC2).
  rewrite Hp1, Hp2, Hc2. repeat split.
Qed.

(** C9.  [buildConfigDescriptor] returns a descriptor and a nil error
    for every byte slice and every annotations map, the nil map
    included: it never panics on the map and never fails, so [Push]
    never takes the error branch after its call. *)
Theorem buildConfigDescriptor_total (byt : list byte)
    (annotations : option (gmap string string)) :
  exists desc,
    buildConfigDescriptor byt annotations = Ret (desc, None)
    /\ MediaType desc = configMediaType
    /\ Digest desc = FromBytes byt
    /\ Size desc = Z.of_nat (length byt)
    /\ ResolveName desc = (configName, true).
Proof.
  destruct annotations as [a|]; eexists;
    (split; [reflexivity|]); cbn; repeat split;
    unfold ResolveName, map_index; cbn; rewrite lookup_insert_eq;
    reflexivity.
Qed.

(** C10.  [Push] does not check [pkg] for nil: called with a nil
    package it panics on the dereference, and with any non-nil package
    it returns. *)
Theorem Push_nil_package (ctx : Context) (ref : string) (r : Registry) :
  Push ctx ref None r = Panic nil_dereference
  /\ forall pkg : EbpfPackage,
       exists err r', Push ctx ref (Some pkg) r = Ret (err, r').
Proof.
  split; [reflexivity|]. intros pkg. unfold Push. rewrite stage_eq.
  cbn [mbind outcome_bind bind].
  destruct (oras.Copy _ _ _ _ _) as [r' [d err]]. eauto.
Qed.

End Contract.

(** ** The statements at the concrete digest and codec *)

Section Instances.
#[local] Existing Instance spelled_digest.
#[local] Existing Instance bits_codec.

(** C1 fails for a string that is not UTF-8: [json.Marshal] writes
    its invalid byte as the escape of U+FFFD, and the package pulled
    back carries the three bytes of U+FFFD in place of [0xFF]. *)
Lemma push_pull_invalid_utf8 :
  exists r' pkg,
    Push Background example_ref
         (Some {| ProgramFileBytes := example_program;
                  embedded := {| Info := invalid_info |} |}) registry0
    = Ret (None, r')
    /\ Pull Background example_ref r' = Ret (Some pkg, None)
    /\ Info (embedded pkg) = string_of_list_byte [xef; xbf; xbd]
    /\ Info (embedded pkg) <> invalid_info.
Proof.
  eexists. eexists. split; [|split; [|split]].
  - apply Push_eq; [apply spelled_digest_collision_free
                   |apply bits_codec_reads
                   |exact registry0_ok|reflexivity].
  - cbn [ProgramFileBytes embedded].
    apply Pull_pushed; [apply spelled_digest_collision_free
                       |apply bits_codec_reads
                       |exact registry0_ok|reflexivity].
  - vm_compute. reflexivity.
  - vm_compute. discriminate.
Qed.

(** The theorems at the example package and registries. *)
Lemma push_pull_roundtrip_witness :
  exists pkg,
    Pull Background example_ref example_registry = Ret (Some pkg, None)
    /\ ProgramFileBytes pkg = example_program
    /\ Info (embedded pkg) = "hello".
Proof.
  apply (push_pull_roundtrip Background Background example_ref
           example_program "hello" registry0).
  - apply spelled_digest_collision_free.
  - apply bits_codec_reads.
  - exact registry0_ok.
  - vm_compute. reflexivity.
  - reflexivity.
  - reflexivity.
Defined.

Lemma pull_missing_entry_witness :
  Pull Background example_ref no_program_registry
  = Ret (None, Some (errors_New "could not find ebpf bytes in manifest")).
Proof.
  apply (pull_missing_entry Background example_ref no_program_registry
           (fst (oras.Copy Background no_program_registry example_ref
                           NewMemory EmptyString))
           (fst (snd (oras.Copy Background no_program_registry
                                example_ref NewMemory EmptyString)))).
  - apply copy_result. vm_compute. reflexivity.
  - left. apply (bool_decide_unpack _). vm_compute. exact I.
Defined.

Lemma pull_malformed_config_witness :
  (forall cfg e,
     json_Unmarshal (list_byte_of_string "oops") {| Info := EmptyString |}
     = (cfg, Some e) ->
     Pull Background example_ref bad_config_registry = Ret (None, Some e))
  /\ (json.parse (list_byte_of_string "oops") = None ->
      Pull Background example_ref bad_config_registry
      = Ret (None, Some SyntaxError)).
Proof.
  set (m := fst (oras.Copy Background bad_config_registry example_ref
                           NewMemory EmptyString)).
  apply (pull_malformed_config Background example_ref bad_config_registry
           m
           (fst (snd (oras.Copy Background bad_config_registry
                                example_ref NewMemory EmptyString)))
           (fst (fst (GetByName m ebpfFileName)))
           (fst (fst (GetByName m configName)))
           (snd (fst (GetByName m ebpfFileName)))
           (list_byte_of_string "oops")); subst m.
  - apply copy_result. vm_compute. reflexivity.
  - apply lookup_result. vm_compute. reflexivity.
  - vm_compute. reflexivity.
Defined.

Lemma push_stages_entries_witness :
  exists m progDesc configDesc,
    stage example_ref (Some example_package) = Ret (m, None)
    /\ GetByName m "program.o"
       = (progDesc, ProgramFileBytes example_package, true)
    /\ MediaType progDesc = "binary/ebpf.solo.io.v1"
    /\ GetByName m "config.json"
       = (configDesc, fst (json_Marshal (embedded example_package)), true)
    /\ MediaType configDesc = "application/ebpf.oci.image.config.v1+json"
    /\ Annotations configDesc
       = Some {[ "org.opencontainers.image.title" := "config.json" ]}.
Proof.
  apply (push_stages_entries Background example_ref example_package
           registry0 example_registry).
  - apply spelled_digest_collision_free.
  - reflexivity.
Defined.

(** C5 fails for a string that is not UTF-8: the document written
    for it carries U+FFFD, not the string. *)
Lemma config_serialization_invalid_utf8 :
  json.parse (fst (json_Marshal {| Info := invalid_info |}))
  = Some (json.Object
            [(list_byte_of_string "info", json.String [xef; xbf; xbd])])
  /\ json.parse (fst (json_Marshal {| Info := invalid_info |}))
     <> Some (json.Object
                [(list_byte_of_string "info",
                  json.String (list_byte_of_string invalid_info))]).
Proof. split; [vm_compute; reflexivity|vm_compute; discriminate]. Qed.

Lemma config_serialization_witness :
  exists m configDesc,
    let configByt := fst (json_Marshal (embedded example_package)) in
    stage example_ref (Some example_package) = Ret (m, None)
    /\ nameMap m !! configName = Some configDesc
    /\ json.parse configByt
       = Some (json.Object
                 [(list_byte_of_string "info",
                   json.String
                     (list_byte_of_string
                        (Info (embedded example_package))))])
    /\ Digest configDesc = FromBytes configByt
    /\ Size configDesc = Z.of_nat (length configByt).
Proof.
  apply (config_serialization example_ref example_package).
  vm_compute. reflexivity.
Defined.

Lemma empty_program_roundtrip_witness :
  let pkg := {| ProgramFileBytes := [];
                embedded := {| Info := "hello" |} |} in
  (exists m,
     stage example_ref (Some pkg) = Ret (m, None)
     /\ Push Background example_ref (Some pkg) registry0
        = Ret (snd (snd (oras.Copy Background m example_ref registry0 EmptyString)),
               fst (oras.Copy Background m example_ref registry0 EmptyString)))
  /\ (transport Background registry0 = None ->
      exists r',
        Push Background example_ref (Some pkg) registry0 = Ret (None, r'))
  /\ (forall r',
        Push Background example_ref (Some pkg) registry0 = Ret (None, r') ->
        exists p,
          Pull Background example_ref r' = Ret (Some p, None)
          /\ ProgramFileBytes p = []).
Proof.
  apply (empty_program_roundtrip Background Background example_ref
           {| Info := "hello" |} registry0).
  - apply spelled_digest_collision_free.
  - apply bits_codec_reads.
  - exact registry0_ok.
  - reflexivity.
Defined.

Lemma pull_deterministic_witness :
  (transport Background example_registry
   = transport Background busy_registry ->
   Pull Background example_ref example_registry
   = Pull Background example_ref busy_registry)
  /\ (forall p1 p2 : EbpfPackage,
        Pull Background example_ref example_registry
        = Ret (Some p1, None) ->
        Pull Background example_ref busy_registry
        = Ret (Some p2, None) ->
        p1 = p2).
Proof.
  apply (pull_deterministic Background Background example_ref
           example_registry busy_registry).
  apply (bool_decide_unpack _). vm_compute. exact I.
Defined.

Lemma missing_entry_same_message_witness :
  exists text,
    Pull Background example_ref no_program_registry
    = Ret (None, Some (errors_New text))
    /\ Pull Background example_ref no_config_registry
       = Ret (None, Some (errors_New text))
    /\ text = "could not find ebpf bytes in manifest".
Proof.
  apply (missing_entry_same_message Background Background
           example_ref example_ref
           no_program_registry no_config_registry
           (fst (oras.Copy Background no_program_registry example_ref
                           NewMemory EmptyString))
           (fst (oras.Copy Background no_config_registry example_ref
                           NewMemory EmptyString))
           (fst (snd (oras.Copy Background no_program_registry
                                example_ref NewMemory EmptyString)))
           (fst (snd (oras.Copy Background no_config_registry
                                example_ref NewMemory EmptyString)))).
  - apply copy_result. vm_compute. reflexivity.
  - vm_compute. reflexivity.
  - apply copy_result. vm_compute. reflexivity.
  - vm_compute. reflexivity.
  - vm_compute. reflexivity.
Defined.

End Instances.
End contract.
(** ** Strings coerced to UTF-8 *)

Module coerce_facts.
Import GoFacts utf8 utf8_facts json json_facts.

Lemma valid_loop_rune s r size f t :
  wellformed s r size ->
  valid_loop (S f) (take size s ++ t) = valid_loop f t.
Proof.
  intros W.
  pose proof (wellformed_prefix _ _ _ t W) as W'.
  pose proof (wellformed_size _ _ _ W) as Hsz.
  destruct (take size s ++ t) as [|c tl] eqn:E.
  - apply (f_equal length) in E. rewrite length_app, length_take in E.
    simpl in E. lia.
  - cbn [valid_loop]. rewrite (wellformed_DecodeRune _ _ _ W').
    rewrite (wellformed_not_error _ _ _ W'). rewrite <- E.
    rewrite drop_app_length'; [reflexivity|]. rewrite length_take. lia.
Qed.

Lemma wellformed_replacement t :
  wellformed (EncodeRune RuneError ++ t) RuneError 3.
Proof.
  change (EncodeRune RuneError) with [xef; xbf; xbd].
  change RuneError with ((b2z xef - 0xE0) * 4096 + (b2z xbf - 0x80) * 64 + (b2z xbd - 0x80)).
  apply wf3; vm_compute; split; discriminate.
Qed.

Lemma valid_loop_replacement f t :
  valid_loop (S f) (EncodeRune RuneError ++ t) = valid_loop f t.
Proof.
  pose proof (valid_loop_rune _ _ _ f t (wellformed_replacement [])) as H.
  rewrite app_nil_r in H. exact H.
Qed.

Lemma valid_coerce_loop n : forall s f,
  (length (coerce_loop n s) <= f)%nat ->
  valid_loop f (coerce_loop n s) = true.
Proof.
  induction n as [|n IH]; intros s f Hf.
  - destruct f; reflexivity.
  - destruct s as [|c tl]; [destruct f; reflexivity|].
    cbn [coerce_loop] in *.
    destruct (DecodeRune_cases (c :: tl)) as [(r & size & HD & W)|HD];
      [discriminate| |]; rewrite HD in *.
    + rewrite (wellformed_not_error _ _ _ W) in *.
      pose proof (wellformed_size _ _ _ W) as Hsz.
      rewrite length_app, length_take in Hf.
      destruct f as [|f]; [lia|].
      rewrite (valid_loop_rune _ _ _ _ _ W). apply IH. lia.
    + rewrite Z.eqb_refl in *. cbn [andb Nat.eqb] in *.
      rewrite length_app in Hf.
      change (length (EncodeRune RuneError)) with 3%nat in Hf.
      destruct f as [|f]; [lia|].
      rewrite valid_loop_replacement. apply IH. lia.
Qed.

Lemma Valid_coerce s : Valid (coerce s) = true.
Proof. apply valid_coerce_loop. reflexivity. Qed.

Lemma coerce_idempotent s : coerce (coerce s) = coerce s.
Proof. apply coerce_valid, Valid_coerce. Qed.

Lemma coerce_fixed s : coerce s = s <-> Valid s = true.
Proof.
  split; [|apply coerce_valid].
  intros E. rewrite <- E. apply Valid_coerce.
Qed.

End coerce_facts.

(** ** What a copy changes in a registry, and what it reads from one *)

Module registry_facts.
Import context digest ocispec content oras packaging spec.
Import store_facts copy_facts.

Section Registries.
Context `{Algorithm} `{ManifestCodec}.

Lemma Registry_Resolve_eq ctx (r : Registry) ref :
  Resolve ctx r ref
  = match transport ctx r with
    | Some e => inl e
    | None => match tags r !! ref with
              | Some desc => inr desc
              | None => inl (RegistryError "not found")
              end
    end.
Proof. reflexivity. Qed.

Lemma Registry_Fetch_eq ctx (r : Registry) desc :
  Fetch ctx r desc
  = match transport ctx r with
    | Some e => inl e
    | None => match blobs r !! Digest desc with
              | Some data => inr data
              | None => inl (RegistryError "not found")
              end
    end.
Proof. reflexivity. Qed.

Lemma Registry_Push_inv ctx (r : Registry) ref desc data r' :
  content.Push ctx r ref desc data = inr r' ->
  transport ctx r = None /\ FromBytes data = Digest desc
  /\ r' = put r ref desc data.
Proof.
  cbn. destruct (transport ctx r); [discriminate|].
  destruct (String.eqb_spec (FromBytes data) (Digest desc)) as [E|E];
    cbn [negb]; [|discriminate].
  intros [= <-]. auto.
Qed.

Lemma extends_refl ref r : extends ref r r.
Proof. repeat split; auto. Qed.

Lemma extends_trans ref r1 r2 r3 :
  extends ref r1 r2 -> extends ref r2 r3 -> extends ref r1 r3.
Proof.
  intros (Hb & Ht & Hf) (Hb' & Ht' & Hf'). repeat split.
  - auto.
  - intros ref' Hne. rewrite Ht', Ht by exact Hne. reflexivity.
  - congruence.
Qed.

Lemma put_extends r ref desc data : extends ref r (put r ref desc data).
Proof.
  repeat split.
  - intros d x Hx. cbn.
    destruct (blobs r !! Digest desc) eqn:E; [exact Hx|].
    rewrite lookup_insert_ne; [exact Hx|]. congruence.
  - intros ref' Hne. cbn.
    destruct (String.eqb _ _); [|reflexivity].
    apply lookup_insert_ne. congruence.
Qed.

Lemma transfer_extends {A} `{Target A} ctx (from : A) ref descs :
  forall (r r' : Registry) err,
  transfer ctx from r ref descs = (r', err) -> extends ref r r'.
Proof.
  induction descs as [|desc rest IH]; intros r r' err HT; cbn [transfer] in HT.
  - injection HT as <- _. apply extends_refl.
  - destruct (Fetch ctx from desc) as [e|data];
      [injection HT as <- _; apply extends_refl|].
    destruct (content.Push ctx r ref desc data) as [e|r1] eqn:HP;
      [injection HT as <- _; apply extends_refl|].
    apply Registry_Push_inv in HP as (_ & _ & ->).
    eapply extends_trans; [apply put_extends|]. eapply IH, HT.
Qed.

Lemma transfer_ok {A} `{Target A} ctx (from : A) ref descs :
  forall (r r' : Registry) err,
  registry_ok r ->
  transfer ctx from r ref descs = (r', err) -> registry_ok r'.
Proof.
  induction descs as [|desc rest IH]; intros r r' err Hok HT; cbn [transfer] in HT.
  - injection HT as <- _. exact Hok.
  - destruct (Fetch ctx from desc) as [e|data];
      [injection HT as <- _; exact Hok|].
    destruct (content.Push ctx r ref desc data) as [e|r1] eqn:HP;
      [injection HT as <- _; exact Hok|].
    apply Registry_Push_inv in HP as (_ & Hd & ->).
    eapply IH; [|exact HT]. apply put_ok; [exact Hok|]. congruence.
Qed.

Lemma Copy_into_registry {A} `{Target A} ctx (from : A) ref
    (r r' : Registry) res :
  oras.Copy ctx from ref r EmptyString = (r', res) ->
  extends ref r r' /\ (registry_ok r -> registry_ok r').
Proof.
  unfold oras.Copy. cbn [String.eqb].
  destruct (Resolve ctx from ref) as [e|root];
    [intros [= <- _]; split; [apply extends_refl|auto]|].
  destruct (Fetch ctx from root) as [e|data];
    [intros [= <- _]; split; [apply extends_refl|auto]|].
  destruct (children root data) as [e|descs];
    [intros [= <- _]; split; [apply extends_refl|auto]|].
  destruct (transfer ctx from r ref descs) as [r1 err] eqn:HT.
  pose proof (transfer_extends _ _ _ _ _ _ _ HT) as He.
  pose proof (fun Hok => transfer_ok _ _ _ _ _ _ _ Hok HT) as Ho.
  destruct err as [e|]; [intros [= <- _]; split; assumption|].
  destruct (content.Push ctx r1 ref root data) as [e|r2] eqn:HP;
    [intros [= <- _]; split; assumption|].
  apply Registry_Push_inv in HP as (_ & Hd & ->).
  intros [= <- _]. split.
  - eapply extends_trans; [exact He|apply put_extends].
  - intros Hok. apply put_ok; [auto|congruence].
Qed.

Lemma Push_into_registry ctx ref pkg r err r' :
  packaging.Push ctx ref pkg r = Ret (err, r') ->
  extends ref r r' /\ (registry_ok r -> registry_ok r').
Proof.
  destruct pkg as [pkg|]; [|discriminate].
  unfold packaging.Push. rewrite stage_eq.
  cbn [mbind outcome_bind bind].
  destruct (oras.Copy _ _ _ _ _) as [r1 [d e]] eqn:HC.
  intros [= <- <-]. eapply Copy_into_registry, HC.
Qed.

(** *** A copy out of the registry into the memory store *)

Lemma Registry_Fetch_inv ctx (r : Registry) desc data :
  Fetch ctx r desc = inr data ->
  transport ctx r = None /\ blobs r !! Digest desc = Some data.
Proof.
  rewrite Registry_Fetch_eq. destruct (transport ctx r); [discriminate|].
  destruct (blobs r !! Digest desc); [|discriminate].
  intros [= <-]. auto.
Qed.

Lemma received_named s ref desc data name d :
  nameMap (received s ref desc data) !! name = Some d ->
  nameMap s !! name = Some d \/ (d = desc /\ titled name desc).
Proof.
  rewrite received_nameMap, Set_nameMap. unfold titled.
  destruct (ResolveName desc) as [n ok]. cbn [fst snd].
  destruct ok; cbn [andb]; [|auto].
  destruct (String.eqb n EmptyString); cbn [negb]; [auto|].
  rewrite lookup_insert. case_decide as Hk; [|auto].
  intros [= <-]. subst. auto.
Qed.

Lemma transfer_from_registry ctx (r : Registry) ref descs :
  forall (to to' : Memory),
  transfer ctx r to ref descs = (to', None) ->
  (forall d x, content to' !! d = Some x ->
               content to !! d = Some x \/ blobs r !! d = Some x)
  /\ (forall name desc, nameMap to' !! name = Some desc ->
        nameMap to !! name = Some desc
        \/ (desc ∈ descs /\ titled name desc))
  /\ Forall (fun d => is_Some (blobs r !! Digest d)) descs.
Proof.
  induction descs as [|desc rest IH]; intros to to' HT;
    cbn [transfer] in HT.
  - injection HT as <-. repeat split; auto.
  - destruct (Fetch ctx r desc) as [e|data] eqn:HF; [discriminate|].
    apply Registry_Fetch_inv in HF as (Ht & Hb).
    rewrite Memory_Push in HT.
    apply IH in HT as (Hc & Hn & Hf). repeat split.
    + intros d x Hx. apply Hc in Hx as [Hx|Hx]; [|auto].
      rewrite received_content, lookup_insert in Hx.
      case_decide as Hk; [|auto]. injection Hx as <-. subst. auto.
    + intros name d Hd. apply Hn in Hd as [Hd|[Hd Ht']].
      * apply received_named in Hd as [Hd|[-> Ht']]; [auto|].
        right. split; [apply list_elem_of_here|exact Ht'].
      * right. split; [apply list_elem_of_further, Hd|exact Ht'].
    + constructor; [rewrite Hb; eauto|exact Hf].
Qed.

(** What a copy that succeeded has read, and what it left in the
    store. *)
Lemma Copy_from_registry ctx (r : Registry) ref m root :
  oras.Copy ctx r ref NewMemory EmptyString = (m, (root, None)) ->
  exists data descs,
    transport ctx r = None
    /\ tags r !! ref = Some root
    /\ blobs r !! Digest root = Some data
    /\ children root data = inr descs
    /\ copied ctx r ref = descs ++ [root]
    /\ (forall d x, content m !! d = Some x -> blobs r !! d = Some x)
    /\ (forall name desc, nameMap m !! name = Some desc ->
          desc ∈ copied ctx r ref /\ titled name desc)
    /\ Forall (fun d => is_Some (blobs r !! Digest d)) descs.
Proof.
  unfold oras.Copy, copied. cbn [String.eqb].
  rewrite Registry_Resolve_eq.
  destruct (transport ctx r) as [e|] eqn:Ht; [discriminate|].
  destruct (tags r !! ref) as [root'|] eqn:Hr; [|discriminate].
  rewrite Registry_Fetch_eq, Ht.
  destruct (blobs r !! Digest root') as [data|] eqn:Hb; [|discriminate].
  destruct (children root' data) as [e|descs] eqn:Hch; [discriminate|].
  destruct (transfer ctx r NewMemory ref descs) as [m1 [e|]] eqn:HT;
    [discriminate|].
  rewrite Memory_Push. intros [= <- <-].
  apply transfer_from_registry in HT as (Hc & Hn & Hf).
  exists data, descs.
  do 5 (split; [first [reflexivity|assumption]|]).
  split; [|split; [|exact Hf]].
  - intros d x Hx. rewrite received_content, lookup_insert in Hx.
    case_decide as Hk.
    + injection Hx as <-. subst. exact Hb.
    + apply Hc in Hx as [Hx|Hx]; [|exact Hx].
      cbn in Hx. rewrite lookup_empty in Hx. discriminate.
  - intros name desc Hd.
    apply received_named in Hd as [Hd|[-> Ht']].
    + apply Hn in Hd as [Hd|[Hd Ht']].
      * cbn in Hd. rewrite lookup_empty in Hd. discriminate.
      * split; [apply elem_of_app; auto|exact Ht'].
    + split; [|exact Ht'].
      apply elem_of_app. right. apply list_elem_of_here.
Qed.

Lemma Pull_package_Copy ctx ref r pkg :
  Pull ctx ref r = Ret (Some pkg, None) ->
  exists m root,
    oras.Copy ctx r ref NewMemory EmptyString = (m, (root, None)).
Proof.
  unfold Pull.
  destruct (oras.Copy ctx r ref NewMemory EmptyString)
    as [m [root [e|]]]; [discriminate|eauto].
Qed.

Lemma GetByName_inv (m : Memory) name desc data :
  GetByName m name = (desc, data, true) ->
  nameMap m !! name = Some desc /\ content m !! Digest desc = Some data.
Proof.
  unfold GetByName. destruct (nameMap m !! name) as [d|]; [|discriminate].
  destruct (content m !! Digest d) as [x|] eqn:E; [|discriminate].
  intros [= <- <-]. auto.
Qed.

Lemma Pull_sound ctx ref r pkg :
  Pull ctx ref r = Ret (Some pkg, None) ->
  exists progDesc configDesc configBytes,
    progDesc ∈ copied ctx r ref
    /\ titled ebpfFileName progDesc
    /\ blobs r !! Digest progDesc = Some (ProgramFileBytes pkg)
    /\ configDesc ∈ copied ctx r ref
    /\ titled configName configDesc
    /\ blobs r !! Digest configDesc = Some configBytes
    /\ json_Unmarshal configBytes {| Info := EmptyString |}
       = (embedded pkg, None).
Proof.
  intros HP. destruct (Pull_package_Copy _ _ _ _ HP) as (m & root & HC).
  rewrite (Pull_copied _ _ _ _ _ HC) in HP.
  apply Copy_from_registry in HC
    as (data & descs & _ & _ & _ & _ & _ & Hc & Hn & _).
  destruct (GetByName m ebpfFileName) as [[d1 b1] ok1] eqn:H1'.
  destruct (GetByName m configName) as [[d2 b2] ok2] eqn:H2'.
  cbn [fst snd] in HP.
  destruct ok1; cbn [negb] in HP; [|discriminate].
  destruct ok2; cbn [negb] in HP; [|discriminate].
  destruct (json_Unmarshal b2 _) as [cfg [e|]] eqn:HU; [discriminate|].
  cbn [fst snd] in HP. injection HP as <-. cbn [ProgramFileBytes embedded].
  apply GetByName_inv in H1' as (Hn1 & Hc1).
  apply GetByName_inv in H2' as (Hn2 & Hc2).
  apply Hn in Hn1 as (? & ?). apply Hn in Hn2 as (? & ?).
  exists d1, d2, b2. repeat split; auto.
Qed.

(** A pull that returned a package returns it again from any
    registry that holds what this one holds, under the same
    reference. *)
Lemma Pull_stable ctx ctx' ref r r' pkg :
  Pull ctx ref r = Ret (Some pkg, None) ->
  (forall d x, blobs r !! d = Some x -> blobs r' !! d = Some x) ->
  tags r' !! ref = tags r !! ref ->
  transport ctx' r' = None ->
  Pull ctx' ref r' = Ret (Some pkg, None).
Proof.
  intros HP Hb Ht Htr. rewrite <- HP. apply Pull_agree.
  - rewrite Htr. symmetry. eapply Pull_transport, HP.
  - destruct (Pull_package_Copy _ _ _ _ HP) as (m & root & HC).
    apply Copy_from_registry in HC
      as (data & descs & _ & Hr & Hd & Hch & _ & _ & _ & Hf).
    unfold artifact_at. rewrite Ht, Hr, Hd, (Hb _ _ Hd), Hch.
    do 2 f_equal. apply list_fmap_ext. intros i d Hi.
    f_equal. rewrite Forall_lookup in Hf.
    destruct (Hf _ _ Hi) as [x Hx]. rewrite Hx. apply Hb, Hx.
Qed.

End Registries.
End registry_facts.

(** ** Decoding a config document *)

Module decode_facts.
Import json packaging spec.

Lemma decode_member_skipped st member :
  skipped member -> decode_member st member = st.
Proof.
  unfold decode_member. intros [->| Hn]; [reflexivity|].
  destruct (field_matches _); [|reflexivity].
  rewrite Hn. destruct st. reflexivity.
Qed.

Lemma decode_skipped members : forall st,
  Forall skipped members -> fold_left decode_member members st = st.
Proof.
  induction members as [|mb rest IH]; intros st Hs; [reflexivity|].
  inversion Hs; subst. cbn [fold_left].
  rewrite decode_member_skipped by assumption. auto.
Qed.

Lemma decode_member_error cfg e member :
  exists cfg', decode_member (cfg, Some e) member = (cfg', Some e).
Proof.
  unfold decode_member. destruct (field_matches _); [|eauto].
  destruct (snd member); cbn; eauto.
Qed.

Lemma decode_error members : forall cfg e,
  exists cfg', fold_left decode_member members (cfg, Some e) = (cfg', Some e).
Proof.
  induction members as [|mb rest IH]; intros cfg e; [cbn; eauto|].
  cbn [fold_left]. destruct (decode_member_error cfg e mb) as [cfg' ->].
  apply IH.
Qed.

Lemma decode_member_mismatched cfg saved member :
  mismatched member -> (saved = None \/ type_error saved) ->
  exists cfg', type_error (snd (decode_member (cfg, saved) member))
    /\ decode_member (cfg, saved) member
       = (cfg', snd (decode_member (cfg, saved) member)).
Proof.
  intros (Hm & Hs & Hn) Hsaved. unfold decode_member. rewrite Hm.
  destruct (snd member) eqn:E; try congruence;
    try (exfalso; eapply Hs; reflexivity);
    (destruct Hsaved as [->|[w ->]]; cbn; eexists;
     (split; [eexists; reflexivity|reflexivity])).
Qed.

Lemma decode_member_type_error cfg saved member :
  (saved = None \/ type_error saved) ->
  let st := decode_member (cfg, saved) member in
  snd st = None \/ type_error (snd st).
Proof.
  intros Hsaved. unfold decode_member.
  destruct (field_matches _); [|exact Hsaved].
  destruct (snd member); cbn; try exact Hsaved;
    destruct Hsaved as [->|[w ->]]; cbn; right; eexists; reflexivity.
Qed.

Lemma decode_type_error members : forall cfg saved,
  (saved = None \/ type_error saved) ->
  let st := fold_left decode_member members (cfg, saved) in
  snd st = None \/ type_error (snd st).
Proof.
  induction members as [|mb rest IH]; intros cfg saved Hs; [exact Hs|].
  cbn [fold_left].
  pose proof (decode_member_type_error cfg saved mb Hs) as Hs'.
  destruct (decode_member (cfg, saved) mb) as [cfg' saved'].
  apply IH, Hs'.
Qed.

Lemma decode_mismatched before member after cfg :
  mismatched member ->
  type_error
    (snd (decode_config (json.Object (before ++ member :: after)) cfg)).
Proof.
  intros Hm. cbn [decode_config]. rewrite fold_left_app. cbn [fold_left].
  pose proof (decode_type_error before cfg None (or_introl eq_refl)) as Hb.
  destruct (fold_left decode_member before (cfg, None)) as [cfg1 saved1].
  cbn [snd] in Hb.
  destruct (decode_member_mismatched cfg1 saved1 member Hm Hb)
    as (cfg2 & (w & Hw) & ->).
  rewrite Hw. destruct (decode_error after cfg2 (UnmarshalTypeError w))
    as [cfg3 ->]. eexists; reflexivity.
Qed.

(** Members none of which is a mismatch leave no error. *)
Lemma decode_member_clean cfg member :
  ~ mismatched member ->
  snd (decode_member (cfg, None) member) = None.
Proof.
  intros Hm. unfold decode_member.
  destruct (field_matches _) eqn:E; [|reflexivity].
  destruct (snd member) eqn:Ev; cbn; try reflexivity;
    exfalso; apply Hm; (split; [exact E|]); rewrite Ev;
    (split; [intros s|]; discriminate).
Qed.

Lemma decode_clean members : forall cfg,
  Forall (fun mb => ~ mismatched mb) members ->
  snd (fold_left decode_member members (cfg, None)) = None.
Proof.
  induction members as [|mb rest IH]; intros cfg Hs; [reflexivity|].
  inversion Hs; subst. cbn [fold_left].
  pose proof (decode_member_clean cfg mb ltac:(assumption)) as Hc.
  destruct (decode_member (cfg, None) mb) as [cfg' saved'].
  cbn [snd] in Hc. subst. auto.
Qed.

Lemma decode_last before key s after cfg :
  Forall (fun mb => ~ mismatched mb) before ->
  field_matches key = true ->
  Forall skipped after ->
  decode_config
    (json.Object (before ++ (key, json.String s) :: after)) cfg
  = ({| Info := string_of_list_byte s |}, None).
Proof.
  intros Hb Hk Ha. cbn [decode_config]. rewrite fold_left_app.
  cbn [fold_left]. pose proof (decode_clean before cfg Hb) as Hc.
  destruct (fold_left decode_member before (cfg, None)) as [cfg1 saved1].
  cbn [snd] in Hc. subst.
  unfold decode_member at 2. cbn [fst snd]. rewrite Hk. cbn [store_Info].
  apply decode_skipped, Ha.
Qed.

Lemma decode_absent members cfg :
  Forall skipped members ->
  decode_config (json.Object members) cfg = (cfg, None).
Proof. intros Hs. cbn [decode_config]. apply decode_skipped, Hs. Qed.

(** The keys that name the field: the tag, in any case of its
    letters. *)
Lemma field_matches_fold key :
  field_matches key = true <->
  exists a b c d,
    key = [a; b; c; d]
    /\ (a = "i"%byte \/ a = "I"%byte) /\ (b = "n"%byte \/ b = "N"%byte)
    /\ (c = "f"%byte \/ c = "F"%byte) /\ (d = "o"%byte \/ d = "O"%byte).
Proof.
  split.
  - intros Hm. destruct key as [|a [|b [|c [|d [|? ?]]]]];
      try (vm_compute in Hm; discriminate Hm);
      try (unfold field_matches in Hm; cbn in Hm;
           rewrite ?andb_false_r in Hm; discriminate Hm).
    exists a, b, c, d. split; [reflexivity|].
    revert Hm. destruct a; try (intros Hm; vm_compute in Hm; discriminate Hm);
    destruct b; try (intros Hm; vm_compute in Hm; discriminate Hm);
    destruct c; try (intros Hm; vm_compute in Hm; discriminate Hm);
    destruct d; try (intros Hm; vm_compute in Hm; discriminate Hm);
    intros _; repeat split; auto.
  - intros (a & b & c & d & -> & [-> | ->] & [-> | ->] & [-> | ->] & [-> | ->]);
      reflexivity.
Qed.

End decode_facts.

(** * Further behaviour of the package *)

Module behaviour.
Import context digest ocispec content oras packaging spec instances.
Import json_facts codec_facts store_facts copy_facts instances_facts.
Import coerce_facts registry_facts decode_facts.

Section Behaviour.
Context `{Algorithm} `{ManifestCodec}.

(** *** [Push] *)

(** The local stage has an entry for each of the three blobs, also
    when digests coincide. *)
Lemma staged_Fetch_some ctx ref B C desc x :
  x ∈ written B C -> Digest desc = FromBytes x ->
  exists data, Fetch ctx (staged ref B C) desc = inr data.
Proof.
  intros Hx Hd. cbn. unfold Get. rewrite Hd.
  cbn [staged descriptor content]. unfold written in Hx.
  apply elem_of_cons in Hx as [->|Hx];
    [|apply elem_of_cons in Hx as [->|Hx];
      [|apply list_elem_of_singleton in Hx as ->]].
  all: rewrite !lookup_insert; repeat case_decide;
    cbn [Digest manifestDesc_of configDesc_of progDesc_of] in *;
    rewrite ?lookup_insert; repeat case_decide;
    try congruence; eauto.
Qed.

(** What an upload finds in place it leaves in place. *)
Lemma put_absorb r ref desc data x :
  blobs r !! Digest desc = Some x ->
  (MediaType desc = MediaTypeImageManifest ->
   tags r !! ref = Some desc) ->
  put r ref desc data = r.
Proof.
  intros Hb Ht. unfold put. rewrite Hb. destruct r as [bl tg fl].
  cbn [blobs tags fault] in *. f_equal.
  destruct (String.eqb_spec (MediaType desc) MediaTypeImageManifest)
    as [E|E]; [|reflexivity].
  apply insert_id. auto.
Qed.

Lemma pushed_blobs r ref B C d x :
  blobs (pushed r ref B C) !! d = Some x ->
  blobs r !! d = Some x \/ x ∈ written B C.
Proof.
  unfold pushed. intros Hx.
  apply put_blobs in Hx as [Hx|[-> _]]; [|right; apply written_manifest].
  apply put_blobs in Hx as [Hx|[-> _]]; [|right; apply written_program].
  apply put_blobs in Hx as [Hx|[-> _]]; [|right; apply written_config].
  auto.
Qed.

Lemma pushed_ok r ref B C :
  registry_ok r -> registry_ok (pushed r ref B C).
Proof.
  intros Hok. unfold pushed. repeat apply put_ok; auto.
Qed.

Lemma pushed_tag r ref B C :
  tags (pushed r ref B C) !! ref
  = Some (manifestDesc_of (Marshal (manifest_of B C))).
Proof. unfold pushed. apply put_tags_manifest. reflexivity. Qed.

Lemma pushed_pushed r ref B C :
  distinct_digests_in r B C -> reads (manifest_of B C) ->
  registry_ok r ->
  pushed (pushed r ref B C) ref B C = pushed r ref B C.
Proof.
  intros Hcf Hrt Hok. set (r' := pushed r ref B C).
  assert (Hhas : forall x, x ∈ written B C ->
            blobs r' !! FromBytes x = Some x)
    by (intros x; apply pushed_has; assumption).
  unfold pushed at 1.
  rewrite (put_absorb r' ref (configDesc_of C) C C);
    [|apply Hhas, written_config|discriminate].
  rewrite (put_absorb r' ref (progDesc_of B) B B);
    [|apply Hhas, written_program|discriminate].
  apply (put_absorb r' ref _ _ (Marshal (manifest_of B C)));
    [apply Hhas, written_manifest|].
  intros _. apply pushed_tag.
Qed.

Lemma put_present r ref desc data x :
  blobs r !! Digest desc = Some x ->
  blobs (put r ref desc data) = blobs r.
Proof. intros Hb. cbn. rewrite Hb. reflexivity. Qed.

Lemma pushed_again r ref ref' B C :
  distinct_digests_in r B C -> reads (manifest_of B C) ->
  registry_ok r ->
  blobs (pushed (pushed r ref B C) ref' B C) = blobs (pushed r ref B C).
Proof.
  intros Hcf Hrt Hok. set (r' := pushed r ref B C).
  assert (Hhas : forall x, x ∈ written B C ->
            blobs r' !! FromBytes x = Some x)
    by (intros x; apply pushed_has; assumption).
  unfold pushed at 1.
  set (r1 := put r' ref' (configDesc_of C) C).
  set (r2 := put r1 ref' (progDesc_of B) B).
  assert (H1 : blobs r1 = blobs r')
    by (eapply put_present, (Hhas C), written_config).
  assert (H2 : blobs r2 = blobs r1)
    by (eapply put_present; rewrite H1;
        apply (Hhas B), written_program).
  rewrite <- H1, <- H2. eapply put_present. rewrite H2, H1.
  apply (Hhas (Marshal (manifest_of B C))), written_manifest.
Qed.


(** X2.  When the registry does not answer (the context is done, or
    the registry is at fault), [Push] returns the error of the
    transport and the registry is as before.  The manifest codec is
    assumed to read the manifest it wrote, which the copy parses
    before it uploads. *)
Theorem push_unreachable (ctx : Context) (ref : string)
    (pkg : EbpfPackage) (r : Registry) (e : error) :
  reads (manifest_of (ProgramFileBytes pkg)
                     (fst (json_Marshal (embedded pkg)))) ->
  transport ctx r = Some e ->
  Push ctx ref (Some pkg) r = Ret (Some e, r).
Proof.
  intros Hrt Ht. unfold packaging.Push. rewrite stage_eq.
  cbn [mbind outcome_bind bind]. unfold oras.Copy.
  set (B := ProgramFileBytes pkg) in *.
  set (C := fst (json_Marshal (embedded pkg))) in *.
  change (Resolve ctx (staged ref B C) ref)
    with (match refMap (staged ref B C) !! ref with
          | Some desc => @inr error _ desc
          | None =>
              inl (errors_New (String.append "unknown reference: " ref))
          end).
  cbn [staged refMap]. rewrite lookup_insert_eq.
  rewrite staged_Fetch_manifest, (children_manifest _ _ Hrt).
  cbn [transfer].
  match goal with
  | |- context [Fetch ctx (staged ref B C) ?d] =>
      destruct (staged_Fetch_some ctx ref B C d C
                  (written_config B C) eq_refl) as [data ->]
  end.
  rewrite (Registry_Push_fault _ _ _ _ _ e) by exact Ht.
  reflexivity.
Qed.

(** X3.  After a push that returned nil, the registry resolves [ref]
    to the descriptor of the manifest that binds the config and the
    program, and holds the program bytes, the config bytes and the
    manifest bytes, each at its digest. *)
Theorem push_uploads_artifact (ctx : Context) (ref : string)
    (pkg : EbpfPackage) (r r' : Registry) :
  let B := ProgramFileBytes pkg in
  let C := fst (json_Marshal (embedded pkg)) in
  let M := Marshal (manifest_of B C) in
  distinct_digests_in r B C -> reads (manifest_of B C) ->
  registry_ok r ->
  Push ctx ref (Some pkg) r = Ret (None, r') ->
  tags r' !! ref = Some (manifestDesc_of M)
  /\ blobs r' !! FromBytes B = Some B
  /\ blobs r' !! FromBytes C = Some C
  /\ blobs r' !! FromBytes M = Some M.
Proof.
  intros B C M Hcf Hrt Hok HP.
  pose proof (Push_transport _ _ _ _ _ HP) as Ht.
  rewrite (Push_eq ctx ref pkg r Hcf Hrt Hok Ht) in HP.
  injection HP as <-. fold B C.
  split; [apply pushed_tag|].
  repeat split; apply pushed_has; try assumption.
  - apply written_program.
  - apply written_config.
  - apply written_manifest.
Qed.

(** X4.  Whatever [Push] returns, it takes nothing away: every blob
    the registry held is still there, unchanged, and every reference
    other than [ref] resolves as before. *)
Theorem push_keeps_registry (ctx : Context) (ref : string)
    (pkg : option EbpfPackage) (r r' : Registry) (err : option error) :
  Push ctx ref pkg r = Ret (err, r') ->
  (forall d x, blobs r !! d = Some x -> blobs r' !! d = Some x)
  /\ (forall ref', ref' <> ref -> tags r' !! ref' = tags r !! ref').
Proof.
  intros HP. apply Push_into_registry in HP as ((Hb & Ht & _) & _).
  auto.
Qed.

(** X5.  [Push] keeps the registry content-addressed: when every
    blob sat at the digest of its content before, so it does after,
    whatever [Push] returns. *)
Theorem push_keeps_content_addressed (ctx : Context) (ref : string)
    (pkg : option EbpfPackage) (r r' : Registry) (err : option error) :
  registry_ok r ->
  Push ctx ref pkg r = Ret (err, r') ->
  registry_ok r'.
Proof.
  intros Hok HP. apply Push_into_registry in HP as (_ & Hk). auto.
Qed.

(** X6.  Pushing the same package under the same reference again
    changes nothing: the second push returns nil and leaves the
    registry exactly as the first one left it. *)
Theorem push_idempotent (ctx ctx' : Context) (ref : string)
    (pkg : EbpfPackage) (r r' : Registry) :
  let B := ProgramFileBytes pkg in
  let C := fst (json_Marshal (embedded pkg)) in
  distinct_digests_in r B C -> reads (manifest_of B C) ->
  registry_ok r ->
  Push ctx ref (Some pkg) r = Ret (None, r') ->
  Err ctx' = None ->
  Push ctx' ref (Some pkg) r' = Ret (None, r').
Proof.
  intros B C Hcf Hrt Hok HP Hctx.
  pose proof (Push_transport _ _ _ _ _ HP) as Ht.
  rewrite (Push_eq ctx ref pkg r Hcf Hrt Hok Ht) in HP.
  injection HP as <-. fold B C.
  rewrite Push_eq.
  - fold B C. rewrite pushed_pushed by assumption. reflexivity.
  - fold B C. intros x y Hx Hy. apply Hcf.
    + destruct Hx as [Hx|[d Hx]]; [auto|].
      apply pushed_blobs in Hx as [Hx|Hx]; eauto.
    + destruct Hy as [Hy|[d Hy]]; [auto|].
      apply pushed_blobs in Hy as [Hy|Hy]; eauto.
  - exact Hrt.
  - apply pushed_ok, Hok.
  - unfold transport in *. rewrite Hctx.
    destruct (Err ctx); [discriminate|]. exact Ht.
Qed.

(** X7.  Pushing the package that was pushed under [ref] again under
    another reference uploads no blob a second time: the registry
    holds the very blobs it held, and the new reference resolves to
    the manifest descriptor that [ref] resolves to. *)
Theorem push_under_second_reference (ctx ctx' : Context)
    (ref ref' : string) (pkg : EbpfPackage) (r r' : Registry) :
  let B := ProgramFileBytes pkg in
  let C := fst (json_Marshal (embedded pkg)) in
  distinct_digests_in r B C -> reads (manifest_of B C) ->
  registry_ok r ->
  Push ctx ref (Some pkg) r = Ret (None, r') ->
  Err ctx' = None ->
  exists r'',
    Push ctx' ref' (Some pkg) r' = Ret (None, r'')
    /\ blobs r'' = blobs r'
    /\ tags r'' !! ref' = tags r' !! ref.
Proof.
  intros B C Hcf Hrt Hok HP Hctx.
  pose proof (Push_transport _ _ _ _ _ HP) as Ht.
  rewrite (Push_eq ctx ref pkg r Hcf Hrt Hok Ht) in HP.
  injection HP as <-. fold B C.
  eexists. split; [apply Push_eq|].
  - fold B C. intros x y Hx Hy. apply Hcf.
    + destruct Hx as [Hx|[d Hx]]; [auto|].
      apply pushed_blobs in Hx as [Hx|Hx]; eauto.
    + destruct Hy as [Hy|[d Hy]]; [auto|].
      apply pushed_blobs in Hy as [Hy|Hy]; eauto.
  - exact Hrt.
  - apply pushed_ok, Hok.
  - unfold transport in *. rewrite Hctx.
    destruct (Err ctx); [discriminate|]. exact Ht.
  - fold B C. split; [apply pushed_again; assumption|].
    rewrite !pushed_tag. reflexivity.
Qed.

(** X8.  The stage that [Push] builds resolves [ref] to a manifest
    descriptor whose content is the manifest with the staged config
    descriptor as its configuration and the staged program
    descriptor as its only layer; the program descriptor carries the
    digest and the length of the program bytes. *)
Theorem push_stages_manifest (ctx : Context) (ref : string)
    (pkg : EbpfPackage) :
  exists m progDesc configDesc manifestDesc,
    stage ref (Some pkg) = Ret (m, None)
    /\ nameMap m !! ebpfFileName = Some progDesc
    /\ nameMap m !! configName = Some configDesc
    /\ Resolve ctx m ref = inr manifestDesc
    /\ MediaType manifestDesc = MediaTypeImageManifest
    /\ Fetch ctx m manifestDesc
       = inr (Marshal {| SchemaVersion := 2; Config := configDesc;
                         Layers := [progDesc];
                         ManifestAnnotations := None |})
    /\ Digest progDesc = FromBytes (ProgramFileBytes pkg)
    /\ Size progDesc = Z.of_nat (length (ProgramFileBytes pkg)).
Proof.
  set (B := ProgramFileBytes pkg).
  set (C := fst (json_Marshal (embedded pkg))).
  exists (staged ref B C), (progDesc_of B), (configDesc_of C),
         (manifestDesc_of (Marshal (manifest_of B C))).
  split; [apply stage_eq|].
  split; [cbn; rewrite lookup_insert_ne by discriminate;
          apply lookup_insert_eq|].
  split; [cbn; apply lookup_insert_eq|].
  split; [cbn; rewrite lookup_insert_eq; reflexivity|].
  split; [reflexivity|].
  split; [apply staged_Fetch_manifest|].
  split; reflexivity.
Qed.

(** *** [Pull] *)

(** X9.  [Pull] of a reference that the registry does not know
    returns no package and an error of the registry. *)
Theorem pull_unknown_reference (ctx : Context) (ref : string)
    (r : Registry) :
  transport ctx r = None -> tags r !! ref = None ->
  exists text, Pull ctx ref r = Ret (None, Some (RegistryError text)).
Proof.
  intros Ht Hr. unfold Pull, oras.Copy.
  rewrite Registry_Resolve_eq, Ht, Hr. eexists. reflexivity.
Qed.

(** X10.  When the registry does not answer (the context is done, or
    the registry is at fault), [Pull] returns no package and the
    error of the transport. *)
Theorem pull_unreachable (ctx : Context) (ref : string) (r : Registry)
    (e : error) :
  transport ctx r = Some e ->
  Pull ctx ref r = Ret (None, Some e).
Proof.
  intros Ht. unfold Pull, oras.Copy.
  rewrite Registry_Resolve_eq, Ht. reflexivity.
Qed.

(** X11.  On a registry, whatever it holds and whether it answers
    or not, [Pull] never panics, and it returns either a package and
    a nil error or no package and an error, never both and never
    neither. *)
Theorem pull_package_or_error (ctx : Context) (ref : string)
    (r : Registry) :
  (exists pkg, Pull ctx ref r = Ret (Some pkg, None))
  \/ (exists e, Pull ctx ref r = Ret (None, Some e)).
Proof.
  unfold Pull.
  destruct (oras.Copy ctx r ref NewMemory EmptyString)
    as [m [root [e|]]]; [eauto|].
  destruct (GetByName m ebpfFileName) as [[d1 b1] [|]]; cbn [negb];
    [|eauto].
  destruct (GetByName m configName) as [[d2 b2] [|]]; cbn [negb];
    [|eauto].
  destruct (json_Unmarshal b2 _) as [cfg [e|]]; eauto.
Qed.

(** X12.  A package that [Pull] returns is read off the registry:
    its program bytes are the blob at the digest of a descriptor
    titled [program.o] that the artifact at [ref] lists, and its
    config is decoded from the blob of a listed descriptor titled
    [config.json].  In a content-addressed registry the program
    bytes have the digest of their descriptor. *)
Theorem pull_reads_registry (ctx : Context) (ref : string)
    (r : Registry) (pkg : EbpfPackage) :
  Pull ctx ref r = Ret (Some pkg, None) ->
  exists progDesc configDesc configBytes,
    progDesc ∈ copied ctx r ref
    /\ titled ebpfFileName progDesc
    /\ blobs r !! Digest progDesc = Some (ProgramFileBytes pkg)
    /\ configDesc ∈ copied ctx r ref
    /\ titled configName configDesc
    /\ blobs r !! Digest configDesc = Some configBytes
    /\ json_Unmarshal configBytes {| Info := EmptyString |}
       = (embedded pkg, None)
    /\ (registry_ok r ->
        FromBytes (ProgramFileBytes pkg) = Digest progDesc).
Proof.
  intros HP.
  destruct (Pull_sound _ _ _ _ HP)
    as (d1 & d2 & b2 & H1 & H2 & H3 & H4 & H5 & H6 & H7).
  exists d1, d2, b2. do 7 (split; [assumption|]).
  intros Hok. apply Hok, H3.
Qed.

(** X13.  A push under another reference does not disturb a pull:
    when [Pull] of [ref] returns a package, it returns the same
    package after any [Push] under a reference other than [ref],
    whatever that push returned. *)
Theorem pull_after_other_push (ctx ctx' : Context) (ref ref' : string)
    (pkg : EbpfPackage) (pkg' : option EbpfPackage) (r r' : Registry)
    (err : option error) :
  Pull ctx ref r = Ret (Some pkg, None) ->
  ref' <> ref ->
  Push ctx' ref' pkg' r = Ret (err, r') ->
  Pull ctx ref r' = Ret (Some pkg, None).
Proof.
  intros HP Hne HPush.
  apply Push_into_registry in HPush as ((Hb & Ht & Hf) & _).
  eapply Pull_stable; [exact HP|exact Hb|apply Ht; congruence|].
  pose proof (Pull_transport _ _ _ _ HP) as Htr.
  unfold transport in *. rewrite Hf. exact Htr.
Qed.

(** *** The config document *)

Section Config.
Variables (ctx : Context) (ref : string) (r : Registry) (m : Memory)
          (root progDesc configDesc : Descriptor)
          (ebpfBytes configBytes : list byte).
Hypothesis Hcopy :
  oras.Copy ctx r ref NewMemory EmptyString = (m, (root, None)).
Hypothesis Hprogram :
  GetByName m ebpfFileName = (progDesc, ebpfBytes, true).
Hypothesis Hconfig :
  GetByName m configName = (configDesc, configBytes, true).

Lemma Pull_decoded :
  Pull ctx ref r =
    match json_Unmarshal configBytes {| Info := EmptyString |} with
    | (_, Some err) => Ret (None, Some err)
    | (cfg, None) =>
        Ret (Some {| ProgramFileBytes := ebpfBytes; embedded := cfg |},
             None)
    end.
Proof.
  rewrite (Pull_copied _ _ _ _ _ Hcopy), Hprogram, Hconfig.
  cbn [fst snd negb].
  destruct (json_Unmarshal configBytes _) as [cfg [e|]]; reflexivity.
Qed.
End Config.

(** X14.  A config document that says nothing of [info] is no
    error: when the config entry is the JSON [null], or an object
    none of whose members names the field with a value other than
    null, [Pull] returns the package with an empty [Info]. *)
Theorem pull_config_without_info (ctx : Context) (ref : string)
    (r : Registry) (m : Memory) (root progDesc configDesc : Descriptor)
    (ebpfBytes configBytes : list byte) :
  oras.Copy ctx r ref NewMemory EmptyString = (m, (root, None)) ->
  GetByName m ebpfFileName = (progDesc, ebpfBytes, true) ->
  GetByName m configName = (configDesc, configBytes, true) ->
  json.parse configBytes = Some json.Null
  \/ (exists members,
        json.parse configBytes = Some (json.Object members)
        /\ Forall skipped members) ->
  Pull ctx ref r
  = Ret (Some {| ProgramFileBytes := ebpfBytes;
                 embedded := {| Info := EmptyString |} |}, None).
Proof.
  intros HC HB HCfg Hdoc.
  rewrite (Pull_decoded _ _ _ _ _ _ _ _ _ HC HB HCfg).
  unfold json_Unmarshal.
  destruct Hdoc as [->|(members & -> & Hs)]; [reflexivity|].
  rewrite decode_absent by exact Hs. reflexivity.
Qed.

(** X15.  A config document of the wrong type is an error: when the
    config entry is a JSON value other than an object and null, or
    an object with a member that names the field with a value that
    is neither a string nor null, [Pull] returns no package and an
    [UnmarshalTypeError]. *)
Theorem pull_config_type_mismatch (ctx : Context) (ref : string)
    (r : Registry) (m : Memory) (root progDesc configDesc : Descriptor)
    (ebpfBytes configBytes : list byte) (v : json.value) :
  oras.Copy ctx r ref NewMemory EmptyString = (m, (root, None)) ->
  GetByName m ebpfFileName = (progDesc, ebpfBytes, true) ->
  GetByName m configName = (configDesc, configBytes, true) ->
  json.parse configBytes = Some v ->
  (v <> json.Null /\ forall members, v <> json.Object members)
  \/ (exists before member after,
        v = json.Object (before ++ member :: after)
        /\ mismatched member) ->
  exists what,
    Pull ctx ref r = Ret (None, Some (UnmarshalTypeError what)).
Proof.
  intros HC HB HCfg Hv Hdoc.
  rewrite (Pull_decoded _ _ _ _ _ _ _ _ _ HC HB HCfg).
  unfold json_Unmarshal. rewrite Hv.
  destruct Hdoc as [[Hn Ho]|(before & member & after & -> & Hm)].
  - destruct v; cbn [decode_config]; try (eexists; reflexivity).
    + congruence.
    + exfalso. eapply Ho. reflexivity.
  - destruct (decode_mismatched before member after
                {| Info := EmptyString |} Hm) as [what Hw].
    destruct (decode_config _ _) as [cfg e]. cbn [snd] in Hw. subst.
    eexists. reflexivity.
Qed.

(** X16.  Members that do not name the field are ignored, the key is
    matched without regard to the case of its letters, and of
    several members that name the field the last one counts: when
    the config entry is an object whose last member naming the field
    with a value other than null holds the string [s], and no
    earlier member is of the wrong type, [Pull] returns the package
    with [Info = s]. *)
Theorem pull_config_last_info (ctx : Context) (ref : string)
    (r : Registry) (m : Memory) (root progDesc configDesc : Descriptor)
    (ebpfBytes configBytes : list byte)
    (before after : list (list byte * json.value))
    (key s : list byte) :
  oras.Copy ctx r ref NewMemory EmptyString = (m, (root, None)) ->
  GetByName m ebpfFileName = (progDesc, ebpfBytes, true) ->
  GetByName m configName = (configDesc, configBytes, true) ->
  json.parse configBytes
  = Some (json.Object (before ++ (key, json.String s) :: after)) ->
  Forall (fun member => ~ mismatched member) before ->
  (exists a b c d,
     key = [a; b; c; d]
     /\ (a = "i"%byte \/ a = "I"%byte) /\ (b = "n"%byte \/ b = "N"%byte)
     /\ (c = "f"%byte \/ c = "F"%byte)
     /\ (d = "o"%byte \/ d = "O"%byte)) ->
  Forall skipped after ->
  Pull ctx ref r
  = Ret (Some {| ProgramFileBytes := ebpfBytes;
                 embedded := {| Info := string_of_list_byte s |} |},
         None).
Proof.
  intros HC HB HCfg Hdoc Hb Hk Ha.
  rewrite (Pull_decoded _ _ _ _ _ _ _ _ _ HC HB HCfg).
  unfold json_Unmarshal. rewrite Hdoc.
  rewrite decode_last; [reflexivity|exact Hb| |exact Ha].
  apply field_matches_fold, Hk.
Qed.

(** *** The round trip *)

(** X17.  For every package, whatever the bytes of its [Info], a
    pull after a push returns the program bytes as they were and an
    [Info] that is well-formed UTF-8: the pushed [Info] with each
    byte that starts no well-formed encoding replaced by U+FFFD.  It
    is the pushed [Info] exactly when that was well-formed UTF-8. *)
Theorem push_pull_coerces_info (ctx ctx' : Context) (ref : string)
    (B : list byte) (info : string) (r r' : Registry) :
  let C := fst (json_Marshal {| Info := info |}) in
  distinct_digests_in r B C -> reads (manifest_of B C) ->
  registry_ok r ->
  Push ctx ref
       (Some {| ProgramFileBytes := B; embedded := {| Info := info |} |}) r
  = Ret (None, r') ->
  Err ctx' = None ->
  exists pkg,
    Pull ctx' ref r' = Ret (Some pkg, None)
    /\ ProgramFileBytes pkg = B
    /\ list_byte_of_string (Info (embedded pkg))
       = json.coerce (list_byte_of_string info)
    /\ utf8.Valid (list_byte_of_string (Info (embedded pkg))) = true
    /\ (Info (embedded pkg) = info
        <-> utf8.Valid (list_byte_of_string info) = true).
Proof.
  intros C Hcf Hrt Hok HP Hctx.
  pose proof (Push_transport _ _ _ _ _ HP) as Ht.
  rewrite (Push_eq ctx ref
             {| ProgramFileBytes := B; embedded := {| Info := info |} |}
             r Hcf Hrt Hok Ht) in HP.
  injection HP as <-. cbn [ProgramFileBytes embedded].
  eexists. split.
  - apply (Pull_pushed ctx' ref B {| Info := info |} r Hcf Hrt Hok).
    unfold transport in *. rewrite Hctx.
    destruct (Err ctx); [discriminate|exact Ht].
  - cbn [ProgramFileBytes embedded Info].
    rewrite list_byte_of_string_of_list_byte.
    split; [reflexivity|]. split; [reflexivity|].
    split; [apply Valid_coerce|].
    rewrite <- coerce_fixed. split.
    + intros E. rewrite <- E at 2.
      rewrite list_byte_of_string_of_list_byte. reflexivity.
    + intros E. rewrite E. apply string_of_list_byte_of_string.
Qed.

(** *** [buildConfigDescriptor] *)

(** X18.  [buildConfigDescriptor] adds the title to the annotations
    it is given and takes none away: the descriptor carries
    [config.json] as its title, replacing a title the caller had
    set, and every other annotation of the caller as it was. *)
Theorem buildConfigDescriptor_keeps_annotations (byt : list byte)
    (annotations : gmap string string) :
  exists desc result,
    buildConfigDescriptor byt (Some annotations) = Ret (desc, None)
    /\ Annotations desc = Some result
    /\ result !! AnnotationTitle = Some configName
    /\ (forall key, key <> AnnotationTitle ->
          result !! key = annotations !! key).
Proof.
  eexists. eexists. split; [reflexivity|].
  cbn [Annotations]. split; [reflexivity|]. split.
  - apply lookup_insert_eq.
  - intros key Hne. apply lookup_insert_ne. congruence.
Qed.

(** *** The handle *)


End Behaviour.

(** ** The statements at the concrete digest and codec *)

Section Instances.
#[local] Existing Instance spelled_digest.
#[local] Existing Instance bits_codec.

Lemma push_unreachable_witness :
  Push Background example_ref (Some example_package) down_registry
  = Ret (Some (RegistryError "service unavailable"), down_registry).
Proof.
  apply (push_unreachable Background example_ref example_package
           down_registry).
  - apply bits_codec_reads.
  - reflexivity.
Defined.

Lemma push_uploads_artifact_witness :
  tags example_registry !! example_ref
  = Some (manifestDesc_of
            (Marshal (manifest_of example_program example_config)))
  /\ blobs example_registry !! FromBytes example_program
     = Some example_program
  /\ blobs example_registry !! FromBytes example_config
     = Some example_config
  /\ blobs example_registry
       !! FromBytes (Marshal (manifest_of example_program example_config))
     = Some (Marshal (manifest_of example_program example_config)).
Proof.
  apply (push_uploads_artifact Background example_ref example_package
           registry0 example_registry).
  - apply spelled_digest_collision_free.
  - apply bits_codec_reads.
  - exact registry0_ok.
  - reflexivity.
Defined.

Lemma push_keeps_registry_witness :
  (forall d x, blobs example_registry !! d = Some x ->
               blobs busy_registry !! d = Some x)
  /\ (forall ref', ref' <> other_ref ->
        tags busy_registry !! ref' = tags example_registry !! ref').
Proof.
  apply (push_keeps_registry Background other_ref (Some other_package)
           example_registry busy_registry None).
  reflexivity.
Defined.

Lemma push_keeps_content_addressed_witness :
  registry_ok example_registry /\ registry_ok busy_registry.
Proof.
  assert (Hok : registry_ok example_registry)
    by (apply pushed_ok, registry0_ok).
  split; [exact Hok|].
  apply (push_keeps_content_addressed Background other_ref
           (Some other_package) example_registry busy_registry None Hok).
  reflexivity.
Defined.

Lemma push_idempotent_witness :
  Push Background example_ref (Some example_package) example_registry
  = Ret (None, example_registry).
Proof.
  apply (push_idempotent Background Background example_ref
           example_package registry0 example_registry).
  - apply spelled_digest_collision_free.
  - apply bits_codec_reads.
  - exact registry0_ok.
  - reflexivity.
  - reflexivity.
Defined.

Lemma push_under_second_reference_witness :
  exists r'',
    Push Background other_ref (Some example_package) example_registry
    = Ret (None, r'')
    /\ blobs r'' = blobs example_registry
    /\ tags r'' !! other_ref = tags example_registry !! example_ref.
Proof.
  apply (push_under_second_reference Background Background example_ref
           other_ref example_package registry0 example_registry).
  - apply spelled_digest_collision_free.
  - apply bits_codec_reads.
  - exact registry0_ok.
  - reflexivity.
  - reflexivity.
Defined.

Lemma pull_unknown_reference_witness :
  exists text,
    Pull Background other_ref example_registry
    = Ret (None, Some (RegistryError text)).
Proof.
  apply (pull_unknown_reference Background other_ref example_registry).
  - reflexivity.
  - reflexivity.
Defined.

Lemma pull_unreachable_witness :
  Pull {| Err := Some (errors_New "context canceled") |} example_ref
       example_registry
  = Ret (None, Some (errors_New "context canceled")).
Proof.
  apply (pull_unreachable
           {| Err := Some (errors_New "context canceled") |}
           example_ref example_registry).
  reflexivity.
Defined.

Lemma pull_reads_registry_witness :
  exists progDesc configDesc configBytes,
    progDesc ∈ copied Background example_registry example_ref
    /\ titled ebpfFileName progDesc
    /\ blobs example_registry !! Digest progDesc
       = Some (ProgramFileBytes example_package)
    /\ configDesc ∈ copied Background example_registry example_ref
    /\ titled configName configDesc
    /\ blobs example_registry !! Digest configDesc = Some configBytes
    /\ json_Unmarshal configBytes {| Info := EmptyString |}
       = (embedded example_package, None)
    /\ (registry_ok example_registry ->
        FromBytes (ProgramFileBytes example_package) = Digest progDesc).
Proof.
  apply (pull_reads_registry Background example_ref example_registry
           example_package).
  reflexivity.
Defined.

Lemma pull_after_other_push_witness :
  Pull Background example_ref busy_registry
  = Ret (Some example_package, None).
Proof.
  apply (pull_after_other_push Background Background example_ref
           other_ref example_package (Some other_package)
           example_registry busy_registry None).
  - reflexivity.
  - discriminate.
  - reflexivity.
Defined.

Lemma pull_config_without_info_witness :
  Pull Background example_ref no_info_registry
  = Ret (Some {| ProgramFileBytes := example_program;
                 embedded := {| Info := EmptyString |} |}, None).
Proof.
  set (m := fst (oras.Copy Background no_info_registry example_ref
                           NewMemory EmptyString)).
  apply (pull_config_without_info Background example_ref
           no_info_registry m
           (fst (snd (oras.Copy Background no_info_registry
                                example_ref NewMemory EmptyString)))
           (fst (fst (GetByName m ebpfFileName)))
           (fst (fst (GetByName m configName)))
           example_program no_info_config); subst m.
  - apply copy_result. vm_compute. reflexivity.
  - apply lookup_result. vm_compute. reflexivity.
  - apply lookup_result. vm_compute. reflexivity.
  - right. eexists. split; [vm_compute; reflexivity|].
    repeat constructor.
Defined.

Lemma pull_config_type_mismatch_witness :
  exists what,
    Pull Background example_ref number_info_registry
    = Ret (None, Some (UnmarshalTypeError what)).
Proof.
  set (m := fst (oras.Copy Background number_info_registry example_ref
                           NewMemory EmptyString)).
  apply (pull_config_type_mismatch Background example_ref
           number_info_registry m
           (fst (snd (oras.Copy Background number_info_registry
                                example_ref NewMemory EmptyString)))
           (fst (fst (GetByName m ebpfFileName)))
           (fst (fst (GetByName m configName)))
           example_program number_info_config
           (json.Object
              [(list_byte_of_string "info",
                json.Number (list_byte_of_string "7"))])); subst m.
  - apply copy_result. vm_compute. reflexivity.
  - apply lookup_result. vm_compute. reflexivity.
  - apply lookup_result. vm_compute. reflexivity.
  - vm_compute. reflexivity.
  - right. exists [], (list_byte_of_string "info",
                       json.Number (list_byte_of_string "7")), [].
    split; [reflexivity|].
    split; [reflexivity|]. split; [intros s|]; discriminate.
Defined.

Lemma pull_config_last_info_witness :
  Pull Background example_ref loose_config_registry
  = Ret (Some {| ProgramFileBytes := example_program;
                 embedded := {| Info := "b" |} |}, None).
Proof.
  set (m := fst (oras.Copy Background loose_config_registry example_ref
                           NewMemory EmptyString)).
  apply (pull_config_last_info Background example_ref
           loose_config_registry m
           (fst (snd (oras.Copy Background loose_config_registry
                                example_ref NewMemory EmptyString)))
           (fst (fst (GetByName m ebpfFileName)))
           (fst (fst (GetByName m configName)))
           example_program loose_config
           [(list_byte_of_string "INFO",
             json.String (list_byte_of_string "a"));
            (list_byte_of_string "x",
             json.Array [json.Number (list_byte_of_string "1")])]
           []
           (list_byte_of_string "Info") (list_byte_of_string "b"));
    subst m.
  - apply copy_result. vm_compute. reflexivity.
  - apply lookup_result. vm_compute. reflexivity.
  - apply lookup_result. vm_compute. reflexivity.
  - vm_compute. reflexivity.
  - repeat constructor; intros (Hm & Hs & Hn);
      [eapply Hs; reflexivity|discriminate Hm].
  - exists "I"%byte, "n"%byte, "f"%byte, "o"%byte.
    repeat split; auto.
  - constructor.
Defined.

Lemma push_pull_coerces_info_witness :
  exists pkg,
    Pull Background example_ref
         (pushed registry0 example_ref example_program
                 (fst (json_Marshal {| Info := invalid_info |})))
    = Ret (Some pkg, None)
    /\ ProgramFileBytes pkg = example_program
    /\ list_byte_of_string (Info (embedded pkg))
       = json.coerce (list_byte_of_string invalid_info)
    /\ utf8.Valid (list_byte_of_string (Info (embedded pkg))) = true
    /\ (Info (embedded pkg) = invalid_info
        <-> utf8.Valid (list_byte_of_string invalid_info) = true).
Proof.
  apply (push_pull_coerces_info Background Background example_ref
           example_program invalid_info registry0).
  - apply spelled_digest_collision_free.
  - apply bits_codec_reads.
  - exact registry0_ok.
  - reflexivity.
  - reflexivity.
Defined.

End Instances.
End behaviour.
